(** * The preset store of voicevox_engine/preset/Preset.py

    A shallow embedding of the [Preset] model and of [PresetManager], the
    YAML-backed preset database, together with the properties its
    specification states.

    Python objects are mutable and shared, so the embedding keeps an explicit
    object store: [Preset] instances and [list] objects live in two heaps and
    are named by references.  The manager's cache [self.presets] is a
    reference to a list object whose elements are references to [Preset]
    objects.  Every method is a computation in a state-and-exception monad
    over that store, the manager's attributes and the backing file.

    Two things belong to libraries and not to this repository, and are
    abstracted:
    - the text of the YAML file: a file is represented by the Python value
      [yaml.safe_load] returns for it (or by the exception the load raises),
      or, once the manager has written it, by the value [yaml.safe_dump] was
      given; what [yaml.safe_load] makes of such a text is a parameter of
      the development (class [Yaml]), for it is not always the value that
      was dumped;
    - pydantic's coercion of a value that is not of the exact declared type
      (an [int] given for a [float] field, a numeric string, ...), which is
      a parameter of the development (class [Pydantic]). *)

From Stdlib Require Import PrimFloat.
From Stdlib Require Import ZArith Ascii String Lia.
From stdpp Require Import list strings gmap.

Local Open Scope string_scope.
Local Open Scope list_scope.
Local Open Scope Z_scope.

(** ** Python values: what [yaml.safe_load] returns and pydantic validates *)

(** The values of the types [yaml.safe_load] constructs: [None], [bool],
    [int], [float], [str], [bytes] (for [!!binary]), [datetime.date] and
    [datetime.datetime] (for [!!timestamp]), [list], [tuple] (the elements
    of an [!!omap] or [!!pairs] list), [set] (for [!!set]) and [dict].  A
    [str] is held in UTF-8.  Mapping keys that are not strings can never
    name a field of a model and are left out of the representation; the
    elements of a set are listed in the order in which it is iterated. *)
#[warnings="-register-all"]
Inductive pyval : Type :=
| PyNone
| PyBool (b : bool)
| PyInt (n : Z)
| PyFloat (x : float)
| PyStr (s : string)
| PyBytes (b : string)
| PyDate (year month day : Z)
| PyDatetime (year month day hour minute second microsecond : Z)
    (utcoffset : option Z)
| PyList (items : list pyval)
| PyTuple (items : list pyval)
| PySet (items : list pyval)
| PyDict (entries : list (string * pyval)).

Fixpoint dict_get (key : string) (entries : list (string * pyval)) : option pyval :=
  match entries with
  | [] => None
  | (k, v) :: rest => if String.eqb k key then Some v else dict_get key rest
  end.

(** ** class Preset(BaseModel) *)

(** Modelled from the spec: [StyleId] is declared in
    voicevox_engine/metas/Metas.py, which is not among the sources; the
    specification gives [style_id] as an integer. *)
Definition StyleId : Type := Z.

Record Preset : Type := {
  id : Z;
  name : string;
  speaker_uuid : string;
  style_id : StyleId;
  speedScale : float;
  intonationScale : float;
  tempoDynamicsScale : float;
  pitchScale : float;
  volumeScale : float;
  prePhonemeLength : float;
  postPhonemeLength : float
}.

(** [preset.id = n] *)
Definition set_id (p : Preset) (n : Z) : Preset :=
  {| id := n; name := name p; speaker_uuid := speaker_uuid p;
     style_id := style_id p; speedScale := speedScale p;
     intonationScale := intonationScale p;
     tempoDynamicsScale := tempoDynamicsScale p;
     pitchScale := pitchScale p; volumeScale := volumeScale p;
     prePhonemeLength := prePhonemeLength p;
     postPhonemeLength := postPhonemeLength p |}.

(** [preset.model_dump()]: every field, in declaration order. *)
Definition model_dump (p : Preset) : pyval :=
  PyDict [ ("id", PyInt (id p));
           ("name", PyStr (name p));
           ("speaker_uuid", PyStr (speaker_uuid p));
           ("style_id", PyInt (style_id p));
           ("speedScale", PyFloat (speedScale p));
           ("intonationScale", PyFloat (intonationScale p));
           ("tempoDynamicsScale", PyFloat (tempoDynamicsScale p));
           ("pitchScale", PyFloat (pitchScale p));
           ("volumeScale", PyFloat (volumeScale p));
           ("prePhonemeLength", PyFloat (prePhonemeLength p));
           ("postPhonemeLength", PyFloat (postPhonemeLength p)) ].

(** *** Validation

    The fields are declared with [Field(title=..., description=...)] and, for
    [tempoDynamicsScale], [default=1.0]: a type per field and nothing else.
    A value of the declared type is accepted as it is; what pydantic does
    with any other value is the library's business. *)
Class Pydantic : Type := {
  lax_int : pyval -> option Z;
  lax_float : pyval -> option float;
  lax_str : pyval -> option string
}.

(** One entry of a pydantic [ValidationError]: the field and, when there is
    one, the rejected input. *)
Inductive field_error : Type :=
| Missing (field : string)
| Invalid (field : string) (input : pyval).

(** Validation collects the errors of all fields. *)
Definition validated (A : Type) : Type := list field_error + A.

Definition vpure {A : Type} (a : A) : validated A := inr a.

Definition vap {A B : Type} (f : validated (A -> B)) (x : validated A) : validated B :=
  match f, x with
  | inr g, inr a => inr (g a)
  | inr _, inl ex => inl ex
  | inl ef, inr _ => inl ef
  | inl ef, inl ex => inl (ef ++ ex)
  end.

Section Validation.
Context {pydantic : Pydantic}.

Definition validate_int (v : pyval) : option Z :=
  match v with PyInt n => Some n | _ => lax_int v end.

Definition validate_float (v : pyval) : option float :=
  match v with PyFloat x => Some x | _ => lax_float v end.

Definition validate_str (v : pyval) : option string :=
  match v with PyStr s => Some s | _ => lax_str v end.

(** One field of the model: looked up by name, validated against its type;
    an absent field takes its default when it has one. *)
Definition field {A : Type} (validate : pyval -> option A) (default : option A)
    (key : string) (entries : list (string * pyval)) : validated A :=
  match dict_get key entries with
  | Some v =>
      match validate v with
      | Some a => inr a
      | None => inl [Invalid key v]
      end
  | None =>
      match default with
      | Some a => inr a
      | None => inl [Missing key]
      end
  end.

(** The constructor [Preset], given its keyword arguments: keys that name
    no field are ignored. *)
Definition Preset_init (entries : list (string * pyval)) : validated Preset :=
  vap (vap (vap (vap (vap (vap (vap (vap (vap (vap (vap (vpure Build_Preset)
    (field validate_int None "id" entries))
    (field validate_str None "name" entries))
    (field validate_str None "speaker_uuid" entries))
    (field validate_int None "style_id" entries))
    (field validate_float None "speedScale" entries))
    (field validate_float None "intonationScale" entries))
    (field validate_float (Some 1.0%float) "tempoDynamicsScale" entries))
    (field validate_float None "pitchScale" entries))
    (field validate_float None "volumeScale" entries))
    (field validate_float None "prePhonemeLength" entries))
    (field validate_float None "postPhonemeLength" entries).

(** Validation of one element of [list[Preset]]. *)
Definition Preset_validate (v : pyval) : validated Preset :=
  match v with
  | PyDict entries => Preset_init entries
  | _ => inl [Invalid "" v]
  end.

Fixpoint validate_all (items : list pyval) : option (list Preset) :=
  match items with
  | [] => Some []
  | v :: rest =>
      match Preset_validate v, validate_all rest with
      | inr p, Some ps => Some (p :: ps)
      | _, _ => None
      end
  end.

(** [parse_obj_as(list[Preset], obj)]; [None] stands for [ValidationError],
    whose content the caller discards.  For a list type pydantic takes a
    [list] and, as the input is not validated in strict mode, a [tuple] or a
    [set] as well, and validates their elements; it refuses a [str], a
    [bytes], a [dict] and whatever cannot be iterated. *)
Definition parse_obj_as_presets (obj : pyval) : option (list Preset) :=
  match obj with
  | PyList items | PyTuple items | PySet items => validate_all items
  | _ => None
  end.
End Validation.

(** ** The object store, the manager and the backing file *)

(** References to heap objects: positions in a heap that only grows. *)
Abbreviation ref := nat (only parsing).

(** Exceptions.  [OSError] stands for every [OSError] other than
    [FileNotFoundError] ([PermissionError], [IsADirectoryError], a full
    disk, ...).  The specification calls [PresetInternalError]
    StoreUnavailable or StoreCorrupt, according to its message, and
    [PresetInputError] PresetNotFound. *)
Inductive exn : Type :=
| PresetInputError (msg : string)
| PresetInternalError (msg : string)
| FileNotFoundError
| OSError
| ValueError
| IndexError
| YAMLError
| UnicodeError.

(** [isinstance(err, FileNotFoundError)] *)
Definition is_FileNotFoundError (e : exn) : bool :=
  match e with FileNotFoundError => true | _ => false end.

(** The content of the file.  A file that comes from outside is given by
    what opening and loading it yields: an exception ([open] or
    [yaml.safe_load] raises) or the loaded value.  A file the manager has
    written is given by the value that was dumped:
    [Dumped obj] is the text that
    [yaml.safe_dump(obj, f, allow_unicode=True, sort_keys=False)] writes. *)
Inductive file_data : Type :=
| Unloadable (e : exn)
| Document (obj : pyval)
| Dumped (obj : pyval).

(** [yaml.safe_load] of a text [yaml.safe_dump] wrote: the value it returns
    or the exception it raises.  This is PyYAML's and not the identity: a
    [str] that holds U+0085, for one, is written in a quoted scalar with
    the character as it is, and read back with a space in its place. *)
Class Yaml : Type := {
  load_dumped : pyval -> exn + pyval
}.

(** [with open(...) as f: obj = yaml.safe_load(f)] *)
Definition safe_load {yaml : Yaml} (data : file_data) : exn + pyval :=
  match data with
  | Unloadable e => inl e
  | Document obj => inr obj
  | Dumped obj => load_dumped obj
  end.

(** The file at [preset_path]: [Absent] when [stat] raises (an [OSError],
    which [_refresh_cache] catches). *)
Inductive file_state : Type :=
| Absent
| Present (st_mtime : float) (data : file_data).

(** What the file system does with the next [open(..., mode="w")] and dump:
    the write goes through and the file gets modification time [st_mtime],
    or it raises [e] and leaves the file as [residue] (untouched when [open]
    failed, truncated or partial when the dump failed). *)
Inductive write_outcome : Type :=
| Written (st_mtime : float)
| WriteFails (e : exn) (residue : file_state).

(** The attributes of a [PresetManager]; [preset_path] names the one file of
    the model. *)
Record PresetManager : Type := {
  presets : ref;
  last_modified_time : float
}.

Record world : Type := {
  objects : list Preset;
  lists : list (list ref);
  self : PresetManager;
  file : file_state
}.

Definition with_objects (os : list Preset) (w : world) : world :=
  {| objects := os; lists := lists w; self := self w; file := file w |}.

Definition with_lists (ls : list (list ref)) (w : world) : world :=
  {| objects := objects w; lists := ls; self := self w; file := file w |}.

Definition with_self (m : PresetManager) (w : world) : world :=
  {| objects := objects w; lists := lists w; self := m; file := file w |}.

Definition with_file (f : file_state) (w : world) : world :=
  {| objects := objects w; lists := lists w; self := self w; file := f |}.

(** ** The monad of Python computations

    A computation returns, raises, or is [Stuck] on a reference that names
    no object (which no Python program can hold; [except] does not catch
    it). *)
Inductive result (A : Type) : Type :=
| Return (a : A)
| Raise (e : exn)
| Stuck.
Arguments Return {A} a.
Arguments Raise {A} e.
Arguments Stuck {A}.

Definition M (A : Type) : Type := world -> result A * world.

Definition ret {A : Type} (a : A) : M A := fun w => (Return a, w).

Definition bind {A B : Type} (m : M A) (k : A -> M B) : M B :=
  fun w =>
    match m w with
    | (Return a, w') => k a w'
    | (Raise e, w') => (Raise e, w')
    | (Stuck, w') => (Stuck, w')
    end.

Definition raise {A : Type} (e : exn) : M A := fun w => (Raise e, w).

Definition stuck {A : Type} : M A := fun w => (Stuck, w).

(** [try: m  except Exception as err: handler err] *)
Definition try_except {A : Type} (m : M A) (handler : exn -> M A) : M A :=
  fun w =>
    match m w with
    | (Raise e, w') => handler e w'
    | r => r
    end.

Declare Scope py_scope.
Delimit Scope py_scope with py.
Notation "x <- m ;; k" := (bind m (fun x => k))
  (at level 100, m at next level, right associativity) : py_scope.
Notation "m ;; k" := (bind m (fun _ => k))
  (at level 100, right associativity) : py_scope.
Local Open Scope py_scope.

Definition get_world : M world := fun w => (Return w, w).
Definition modify (f : world -> world) : M unit := fun w => (Return tt, f w).

Fixpoint for_each {A B : Type} (f : A -> M B) (l : list A) : M (list B) :=
  match l with
  | [] => ret []
  | a :: rest => b <- f a ;; bs <- for_each f rest ;; ret (b :: bs)
  end.

(** *** Objects *)

Definition read_obj (r : ref) : M Preset :=
  w <- get_world ;;
  match objects w !! r with Some p => ret p | None => stuck end.

Definition write_obj (r : ref) (p : Preset) : M unit :=
  modify (fun w => with_objects (<[r := p]> (objects w)) w).

Definition new_obj (p : Preset) : M ref :=
  w <- get_world ;;
  modify (with_objects (objects w ++ [p])) ;;
  ret (length (objects w)).

Definition read_list (r : ref) : M (list ref) :=
  w <- get_world ;;
  match lists w !! r with Some l => ret l | None => stuck end.

Definition write_list (r : ref) (l : list ref) : M unit :=
  modify (fun w => with_lists (<[r := l]> (lists w)) w).

Definition new_list (l : list ref) : M ref :=
  w <- get_world ;;
  modify (with_lists (lists w ++ [l])) ;;
  ret (length (lists w)).

(** *** Methods of [list] *)

(** [lst[i]] for [0 <= i] *)
Definition list_getitem (lst : ref) (i : nat) : M ref :=
  l <- read_list lst ;;
  match l !! i with Some x => ret x | None => raise IndexError end.

(** [lst[i] = x] for [0 <= i] *)
Definition list_setitem (lst : ref) (i : nat) (x : ref) : M unit :=
  l <- read_list lst ;;
  if decide (i < length l)%nat then write_list lst (<[i := x]> l)
  else raise IndexError.

(** [lst.append(x)] *)
Definition list_append (lst : ref) (x : ref) : M unit :=
  l <- read_list lst ;;
  write_list lst (l ++ [x]).

(** [lst.pop()] *)
Definition list_pop_last (lst : ref) : M ref :=
  l <- read_list lst ;;
  match last l with
  | Some x => write_list lst (removelast l) ;; ret x
  | None => raise IndexError
  end.

(** [lst.pop(i)] for [0 <= i] *)
Definition list_pop (lst : ref) (i : nat) : M ref :=
  l <- read_list lst ;;
  match l !! i with
  | Some x => write_list lst (delete i l) ;; ret x
  | None => raise IndexError
  end.

(** [lst.insert(i, x)] for [0 <= i]: past the end it appends. *)
Definition list_insert (lst : ref) (i : nat) (x : ref) : M unit :=
  l <- read_list lst ;;
  write_list lst (take i l ++ x :: drop i l).

(** [for i in range(n): body i] with an [else] clause: the body returns
    [Some a] to [break] with [a], [None] to go on. *)
Fixpoint for_range_else {A : Type} (body : nat -> M (option A)) (i n : nat)
    (orelse : M A) : M A :=
  match n with
  | O => orelse
  | S n' =>
      r <- body i ;;
      match r with
      | Some a => ret a
      | None => for_range_else body (S i) n' orelse
      end
  end.

(** [max(ids)] *)
Definition py_max (ids : list Z) : M Z :=
  match ids with
  | [] => raise ValueError
  | x :: rest => ret (foldl Z.max x rest)
  end.

(** ** class PresetManager *)

Definition msg_file_not_found : string := "プリセットの設定ファイルが見つかりません".
Definition msg_file_empty : string := "プリセットの設定ファイルが空の内容です".
Definition msg_file_mistake : string := "プリセットの設定ファイルにミスがあります".
Definition msg_id_duplicated : string := "プリセットのidに重複があります".
Definition msg_no_update_target : string := "更新先のプリセットが存在しません".
Definition msg_no_delete_target : string := "削除対象のプリセットが存在しません".

Definition get_self : M PresetManager := fun w => (Return (self w), w).

(** [PresetManager.__init__] *)
Definition PresetManager_init : M unit :=
  l <- new_list [] ;;
  modify (with_self {| presets := l; last_modified_time := 0.0%float |}).

(** [[preset.id for preset in self.presets]] *)
Definition cache_ids : M (list Z) :=
  s <- get_self ;;
  l <- read_list (presets s) ;;
  ps <- for_each read_obj l ;;
  ret (map id ps).

(** [PresetManager._write_on_file] *)
Definition _write_on_file (io : write_outcome) : M unit :=
  match io with
  | WriteFails e residue => modify (with_file residue) ;; raise e
  | Written st_mtime =>
      s <- get_self ;;
      l <- read_list (presets s) ;;
      ps <- for_each read_obj l ;;
      modify (with_file (Present st_mtime (Dumped (PyList (map model_dump ps)))))
  end.

Section Manager.
Context {pydantic : Pydantic} {yaml : Yaml}.

(** [PresetManager._refresh_cache] *)
Definition _refresh_cache : M unit :=
  w <- get_world ;;
  match file w with
  | Absent => raise (PresetInternalError msg_file_not_found)
  | Present _last_modified_time data =>
      if PrimFloat.eqb _last_modified_time (last_modified_time (self w))
      then ret tt
      else
        match safe_load data with
        | inl e => raise e
        | inr PyNone => raise (PresetInternalError msg_file_empty)
        | inr obj =>
            match parse_obj_as_presets obj with
            | None => raise (PresetInternalError msg_file_mistake)
            | Some parsed =>
                items <- for_each new_obj parsed ;;
                _presets <- new_list items ;;
                if decide (length (map id parsed) = length (remove_dups (map id parsed)))
                then modify (with_self {| presets := _presets;
                                          last_modified_time := _last_modified_time |})
                else raise (PresetInternalError msg_id_duplicated)
            end
        end
  end.

(** [PresetManager.add_preset] *)
Definition add_preset (io : write_outcome) (preset : ref) : M Z :=
  _refresh_cache ;;
  p <- read_obj preset ;;
  ids <- cache_ids ;;
  (if (id p <? 0) || bool_decide (id p ∈ ids)
   then m <- py_max ids ;; write_obj preset (set_id p (m + 1))
   else ret tt) ;;
  s <- get_self ;;
  list_append (presets s) preset ;;
  try_except (_write_on_file io)
    (fun err =>
       list_pop_last (presets s) ;;
       if is_FileNotFoundError err
       then raise (PresetInternalError msg_file_not_found)
       else raise err) ;;
  p' <- read_obj preset ;;
  ret (id p').

(** [PresetManager.load_presets] *)
Definition load_presets : M ref :=
  _refresh_cache ;;
  s <- get_self ;;
  ret (presets s).

(** [PresetManager.update_preset] *)
Definition update_preset (io : write_outcome) (preset : ref) : M Z :=
  _refresh_cache ;;
  s <- get_self ;;
  l <- read_list (presets s) ;;
  prev_preset <-
    for_range_else
      (fun i =>
         cur <- list_getitem (presets s) i ;;
         c <- read_obj cur ;;
         p <- read_obj preset ;;
         if id c =? id p
         then list_setitem (presets s) i preset ;; ret (Some (i, cur))
         else ret None)
      0 (length l)
      (raise (PresetInputError msg_no_update_target)) ;;
  try_except (_write_on_file io)
    (fun err =>
       list_setitem (presets s) (fst prev_preset) (snd prev_preset) ;;
       if is_FileNotFoundError err
       then raise (PresetInternalError msg_file_not_found)
       else raise err) ;;
  p <- read_obj preset ;;
  ret (id p).

(** [PresetManager.delete_preset] *)
Definition delete_preset (io : write_outcome) (target : Z) : M Z :=
  _refresh_cache ;;
  s <- get_self ;;
  l <- read_list (presets s) ;;
  buf <-
    for_range_else
      (fun i =>
         cur <- list_getitem (presets s) i ;;
         c <- read_obj cur ;;
         if id c =? target
         then b <- list_pop (presets s) i ;; ret (Some (i, b))
         else ret None)
      0 (length l)
      (raise (PresetInputError msg_no_delete_target)) ;;
  try_except (_write_on_file io)
    (fun err =>
       if is_FileNotFoundError err
       then list_insert (presets s) (fst buf) (snd buf) ;;
            raise (PresetInternalError msg_file_not_found)
       else raise err) ;;
  ret target.
End Manager.

(** ** What an observer sees of a world *)

(** The elements of the cache, as references. *)
Definition cache_refs (w : world) : option (list ref) :=
  lists w !! presets (self w).

Definition deref (w : world) (l : list ref) : option (list Preset) :=
  mapM (fun r => objects w !! r) l.

(** The records of a list object, and of the cache. *)
Definition records (w : world) (lst : ref) : option (list Preset) :=
  match lists w !! lst with Some l => deref w l | None => None end.

Definition cache (w : world) : option (list Preset) :=
  records w (presets (self w)).

(** The world after [_refresh_cache] has loaded [parsed] from a file whose
    modification time is [t]: fresh objects, a fresh list, the manager
    rebound to it. *)
Definition reloaded (t : float) (parsed : list Preset) (w : world) : world :=
  {| objects := objects w ++ parsed;
     lists := lists w ++ [seq (length (objects w)) (length parsed)];
     self := {| presets := length (lists w); last_modified_time := t |};
     file := file w |}.

(** The id [add_preset] issues to a record whose id is [x] when the cache
    holds [ids]; [None] when [max] is given the empty list. *)
Definition issue_id (x : Z) (ids : list Z) : option Z :=
  if (x <? 0) || bool_decide (x ∈ ids)
  then match ids with
       | [] => None
       | y :: rest => Some (foldl Z.max y rest + 1)
       end
  else Some x.

(** The exception a failed write surfaces as, in the handlers of
    [add_preset] and [update_preset]. *)
Definition translated (err : exn) : exn :=
  if is_FileNotFoundError err then PresetInternalError msg_file_not_found else err.

(** A validator that accepts values of the declared type only. *)
#[local] Instance strict : Pydantic :=
  {| lax_int := fun _ => None; lax_float := fun _ => None; lax_str := fun _ => None |}.

(** PyYAML on the sample data.  A [str] of printable ASCII characters is
    read back as it was dumped, and so are an [int] and a [float].  A [str]
    with U+0085 (in UTF-8 the bytes 194 133) between two letters is dumped
    in a single-quoted scalar that holds the character itself, which the
    scanner takes for a line break and folds into a space.  The instance
    does this to every U+0085, which is what PyYAML does on the strings
    used here and not on every string. *)
Fixpoint fold_next_line (s : string) : string :=
  match s with
  | String "194"%char (String "133"%char rest) =>
      String " "%char (fold_next_line rest)
  | String c rest => String c (fold_next_line rest)
  | EmptyString => EmptyString
  end.

Fixpoint read_back (v : pyval) : pyval :=
  match v with
  | PyStr s => PyStr (fold_next_line s)
  | PyList items => PyList (map read_back items)
  | PyDict entries => PyDict (map (fun '(k, x) => (k, read_back x)) entries)
  | _ => v
  end.

#[local] Instance pyyaml : Yaml := {| load_dumped := fun obj => inr (read_back obj) |}.

(** The errors of a validation result. *)
Definition errors_of {A : Type} (x : validated A) : list field_error :=
  match x with inl errs => errs | inr _ => [] end.

(** A failed validation carries at least one error. *)
Definition sound {A : Type} (x : validated A) : Prop :=
  match x with inl errs => errs <> [] | inr _ => True end.

(** The errors of every field of [Preset], in declaration order. *)
Definition Preset_field_errors {pydantic : Pydantic}
    (entries : list (string * pyval)) : list field_error :=
  errors_of (field validate_int None "id" entries) ++
  errors_of (field validate_str None "name" entries) ++
  errors_of (field validate_str None "speaker_uuid" entries) ++
  errors_of (field validate_int None "style_id" entries) ++
  errors_of (field validate_float None "speedScale" entries) ++
  errors_of (field validate_float None "intonationScale" entries) ++
  errors_of (field validate_float (Some 1.0%float) "tempoDynamicsScale" entries) ++
  errors_of (field validate_float None "pitchScale" entries) ++
  errors_of (field validate_float None "volumeScale" entries) ++
  errors_of (field validate_float None "prePhonemeLength" entries) ++
  errors_of (field validate_float None "postPhonemeLength" entries).

(** ** Sample data *)

Definition sample (n : Z) (nm : string) : Preset :=
  {| id := n; name := nm; speaker_uuid := "7ffcb7ce-00ec-4bdc-82cd-45a8889e43ff";
     style_id := 0; speedScale := 1.0%float; intonationScale := 1.0%float;
     tempoDynamicsScale := 1.0%float; pitchScale := 0.0%float;
     volumeScale := 1.0%float; prePhonemeLength := 0.125%float;
     postPhonemeLength := 0.125%float |}.

(** A preset far outside every documented range: five times the top speed,
    a pitch of 3, a negative silence before the speech. *)
Definition out_of_range : Preset :=
  {| id := 0; name := "A"; speaker_uuid := "7ffcb7ce-00ec-4bdc-82cd-45a8889e43ff";
     style_id := 0; speedScale := 10.0%float; intonationScale := 1.0%float;
     tempoDynamicsScale := 1.0%float; pitchScale := 3.0%float;
     volumeScale := 1.0%float; prePhonemeLength := (-1.0)%float;
     postPhonemeLength := 0.125%float |}.

(** The keyword arguments that build [out_of_range]. *)
Definition out_of_range_input : list (string * pyval) :=
  [ ("id", PyInt 0); ("name", PyStr "A");
    ("speaker_uuid", PyStr "7ffcb7ce-00ec-4bdc-82cd-45a8889e43ff");
    ("style_id", PyInt 0); ("speedScale", PyFloat 10.0%float);
    ("intonationScale", PyFloat 1.0%float);
    ("tempoDynamicsScale", PyFloat 1.0%float);
    ("pitchScale", PyFloat 3.0%float); ("volumeScale", PyFloat 1.0%float);
    ("prePhonemeLength", PyFloat (-1.0)%float);
    ("postPhonemeLength", PyFloat 0.125%float) ].

(** A manager just constructed over a file that holds [obj], last modified
    at 1700000000.0 seconds. *)
Definition just_opened (obj : pyval) : world :=
  {| objects := []; lists := [[]];
     self := {| presets := 0%nat; last_modified_time := 0.0%float |};
     file := Present 1700000000.0%float (Document obj) |}.

(** An entry of a [ValidationError] names a field of the input and, unless
    the field is missing, the value found there. *)
Definition reports (entries : list (string * pyval)) (e : field_error) : Prop :=
  match e with
  | Missing key => dict_get key entries = None
  | Invalid key v => dict_get key entries = Some v
  end.

(** The records a list of references [l] denotes, [ps] before, once the
    object at [r] has been overwritten by [q]. *)
Definition overwritten (r : nat) (q : Preset) (l : list nat) (ps : list Preset) :
    list Preset :=
  zip_with (fun r' p' => if decide (r' = r) then q else p') l ps.

(** A store in step with its file, holding the presets 0 and 1, and three
    more [Preset] objects a caller has built (with ids -1, 1 and 7). *)
Definition two_presets : world :=
  {| objects := [sample 0 "A"; sample 1 "B"; sample (-1) "C"; sample 1 "D";
                 sample 7 "E"];
     lists := [[0%nat; 1%nat]];
     self := {| presets := 0%nat; last_modified_time := 1700000000.0%float |};
     file := Present 1700000000.0%float
               (Document (PyList (map model_dump [sample 0 "A"; sample 1 "B"]))) |}.

(** A store in step with a file that holds the empty sequence, and one
    [Preset] object a caller has built, with id -1. *)
Definition empty_store : world :=
  {| objects := [sample (-1) "A"];
     lists := [[]];
     self := {| presets := 0%nat; last_modified_time := 1700000000.0%float |};
     file := Present 1700000000.0%float (Document (PyList [])) |}.

(** The ids of the cache are pairwise distinct. *)
Definition unique_ids (w : world) : Prop :=
  exists ps, cache w = Some ps /\ NoDup (map id ps).

(** The mutating calls of the public interface. *)
Inductive call : Type :=
| Add (preset : nat)
| Update (preset : nat)
| Delete (target : Z).

Definition run {pydantic : Pydantic} {yaml : Yaml} (c : call) (io : write_outcome) : M Z :=
  match c with
  | Add preset => add_preset io preset
  | Update preset => update_preset io preset
  | Delete target => delete_preset io target
  end.

(** The argument of a call is an object that exists when the call is made;
    [distinct_argument] says moreover that [add_preset] is not given an
    object the cache already holds. *)
Definition existing_argument (w : world) (c : call) : Prop :=
  match c with
  | Add preset | Update preset => is_Some (objects w !! preset)
  | Delete _ => True
  end.

Definition distinct_argument (w : world) (c : call) : Prop :=
  match c with
  | Add preset => forall l, cache_refs w = Some l -> preset ∉ l
  | _ => True
  end.

(** Histories of a store: successful calls, between which the file may
    change in any way and callers may build new [Preset] objects. *)
Inductive history {pydantic : Pydantic} {yaml : Yaml} : world -> world -> Prop :=
| history_start w : history w w
| history_call w w1 w2 c io n :
    history w w1 ->
    existing_argument w1 c ->
    distinct_argument w1 c ->
    run c io w1 = (Return n, w2) ->
    history w w2
| history_outside w w1 built f :
    history w w1 ->
    history w (with_file f (with_objects (objects w1 ++ built) w1)).

(** ** More sample data *)

(** U+0085, NEXT LINE, in UTF-8, and a name that holds it. *)
Definition next_line : string := String "194"%char (String "133"%char EmptyString).

Definition name_with_next_line : string :=
  String.append "A" (String.append next_line "B").

(** [two_presets], and one more [Preset] object a caller has built, whose
    name holds U+0085. *)
Definition next_line_store : world :=
  with_objects (objects two_presets ++ [sample (-1) name_with_next_line]) two_presets.

(** A manager just constructed over a file that holds two records with the
    same id. *)
Definition repeated_id_file : world :=
  just_opened (PyList (map model_dump [sample 1 "A"; sample 1 "B"])).

(** [two_presets] with its file stamped 0.0, the start of the epoch. *)
Definition epoch_file : world :=
  with_file (Present 0.0%float
               (Document (PyList (map model_dump [sample 0 "A"; sample 1 "B"]))))
            two_presets.

(** The names of the fields of [Preset]. *)
Definition Preset_fields : list string :=
  [ "id"; "name"; "speaker_uuid"; "style_id"; "speedScale"; "intonationScale";
    "tempoDynamicsScale"; "pitchScale"; "volumeScale"; "prePhonemeLength";
    "postPhonemeLength" ].

(** [p] with another [tempoDynamicsScale]. *)
Definition set_tempoDynamicsScale (p : Preset) (x : float) : Preset :=
  {| id := id p; name := name p; speaker_uuid := speaker_uuid p;
     style_id := style_id p; speedScale := speedScale p;
     intonationScale := intonationScale p;
     tempoDynamicsScale := x;
     pitchScale := pitchScale p; volumeScale := volumeScale p;
     prePhonemeLength := prePhonemeLength p;
     postPhonemeLength := postPhonemeLength p |}.

(** A dict without the key [key]. *)
Definition dict_remove (key : string) (entries : list (string * pyval)) :
    list (string * pyval) :=
  filter (fun kv => negb (String.eqb (fst kv) key)) entries.

(** [two_presets] after the caller's object 2 has been added. *)
Definition after_add : world :=
  snd (add_preset (Written 1700000001.0%float) 2%nat two_presets).

(** A dumped record as a file written before [tempoDynamicsScale] existed
    holds it: without that key. *)
Definition without_tempoDynamicsScale (v : pyval) : pyval :=
  match v with
  | PyDict entries => PyDict (dict_remove "tempoDynamicsScale" entries)
  | _ => v
  end.

(** ** voicevox_engine/model.py: the validators of [UserDictWord]

    A Python [str] is a sequence of Unicode code points; [u] reads the
    code points of a literal, written here in UTF-8. *)

Fixpoint utf8_decode (bytes : list N) : list N :=
  match bytes with
  | [] => []
  | b0 :: r0 =>
      if (b0 <? 0x80)%N then b0 :: utf8_decode r0
      else
        match r0 with
        | [] => []
        | b1 :: r1 =>
            if (b0 <? 0xE0)%N
            then ((b0 - 0xC0) * 0x40 + (b1 - 0x80))%N :: utf8_decode r1
            else
              match r1 with
              | [] => []
              | b2 :: r2 =>
                  if (b0 <? 0xF0)%N
                  then ((b0 - 0xE0) * 0x1000 + (b1 - 0x80) * 0x40 + (b2 - 0x80))%N
                         :: utf8_decode r2
                  else
                    match r2 with
                    | [] => []
                    | b3 :: r3 =>
                        ((b0 - 0xF0) * 0x40000 + (b1 - 0x80) * 0x1000
                         + (b2 - 0x80) * 0x40 + (b3 - 0x80))%N
                          :: utf8_decode r3
                    end
              end
        end
  end.

Definition u (s : string) : list N :=
  utf8_decode (map Ascii.N_of_ascii (list_ascii_of_string s)).

(** The code point of a one-character literal. *)
Definition ord (s : string) : N := hd 0%N (u s).

(** [s[i]], for an index within the string. *)
Definition char_at (s : list N) (i : nat) : N := nth i s 0%N.

(** [c in cls], for a character and the characters of a literal or a
    list of one-character strings. *)
Definition among (cls : list N) (c : N) : bool := bool_decide (c ∈ cls).

(** [str.maketrans(x, y)]: the dict that sends the code point at each
    position of [x] to the code point at that position of [y]; where [x]
    repeats a character the later position wins. *)
Definition maketrans (x y : list N) : gmap N N :=
  list_to_map (reverse (zip x y)).

(** [s.translate(table)], for a table from code points to code points:
    a character the table has no entry for is kept. *)
Definition translate (table : gmap N N) (s : list N) : list N :=
  map (fun c => default c (table !! c)) s.

(** [UserDictWord.convert_to_zenkaku] *)
Definition convert_to_zenkaku (surface : list N) : list N :=
  translate
    (maketrans (map (fun i => (0x21 + N.of_nat i)%N) (seq 0 94))
               (map (fun i => (0xFF01 + N.of_nat i)%N) (seq 0 94)))
    surface.

(** The [ValueError]s of the validators, by their message:
    - [NotKatakana]: 発音は有効なカタカナでなくてはいけません。
    - [ConsecutiveSutegana]: 無効な発音です。(捨て仮名の連続)
    - [StrayWa]: 無効な発音です。(「くゎ」「ぐゎ」以外の「ゎ」の使用)
    - [WrongAccentType a m]: 誤ったアクセント型です(a)。 expect: 0 <= accent_type <= m *)
Inductive word_error : Type :=
| NotKatakana
| ConsecutiveSutegana
| StrayWa
| WrongAccentType (accent_type mora_count : Z).

(** The character class [[ァ-ヴー]] *)
Definition is_katakana (c : N) : bool :=
  ((ord "ァ" <=? c)%N && (c <=? ord "ヴ")%N) || (c =? ord "ー")%N.

(** [fullmatch(r"[ァ-ヴー]+", s)] *)
Definition fullmatch_katakana (s : list N) : bool :=
  match s with
  | [] => false
  | _ => forallb is_katakana s
  end.

Definition sutegana : list N := u "ァィゥェォャュョヮッ".

(** The body of the loop of [check_is_katakana], at index [i]. *)
Definition check_at (pronunciation : list N) (i : nat) : option word_error :=
  let raised :=
    if among sutegana (char_at pronunciation i)
    then
      if (i <? length pronunciation - 1)%nat &&
         (among (removelast sutegana) (char_at pronunciation (i + 1))
          || ((char_at pronunciation i =? List.last sutegana 0)%N
              && (char_at pronunciation (i + 1) =? List.last sutegana 0)%N))
      then Some ConsecutiveSutegana
      else None
    else None in
  match raised with
  | Some e => Some e
  | None =>
      if (char_at pronunciation i =? ord "ヮ")%N
      then
        if negb (i =? 0)%nat &&
           negb (among (u "クグ") (char_at pronunciation (i - 1)))
        then Some StrayWa
        else None
      else None
  end.

(** [for i in range(n): body i], where the body may raise. *)
Fixpoint first_error (body : nat -> option word_error) (i n : nat) :
    option word_error :=
  match n with
  | O => None
  | S n' =>
      match body i with
      | Some e => Some e
      | None => first_error body (S i) n'
      end
  end.

(** [UserDictWord.check_is_katakana], on a [str] *)
Definition check_is_katakana (pronunciation : list N) : word_error + list N :=
  if negb (fullmatch_katakana pronunciation) then inl NotKatakana
  else
    match first_error (check_at pronunciation) 0 (length pronunciation) with
    | Some e => inl e
    | None => inr pronunciation
    end.

(** The alternatives of the pattern that counts moras, each but the last a
    pair of character classes. *)
Definition rule_others (a b : N) : bool :=
  (among (u "イ") a && among (u "ェ") b)
  || (among (u "ヴ") a && among (u "ャュョ") b)
  || (among (u "トド") a && among (u "ゥ") b)
  || (among (u "テデ") a && among (u "ィャュョ") b)
  || (among (u "デ") a && among (u "ェ") b)
  || (among (u "クグ") a && among (u "ヮ") b).

Definition rule_line_i (a b : N) : bool :=
  among (u "キシチニヒミリギジビピ") a && among (u "ェャュョ") b.

Definition rule_line_u (a b : N) : bool :=
  (among (u "ツフヴ") a && among (u "ァ") b)
  || (among (u "ウスツフヴズ") a && among (u "ィ") b)
  || (among (u "ウツフヴ") a && among (u "ェォ") b).

Definition rule_one_mora (a : N) : bool := is_katakana a.

(** [len(findall(f"(?:{rule_others}|{rule_line_i}|{rule_line_u}|{rule_one_mora})", s))]:
    the scan goes from left to right; at each position the alternatives are
    tried in order, the two-character ones first; a position where none
    matches is skipped. *)
Fixpoint count_moras (s : list N) : nat :=
  match s with
  | [] => O
  | a :: rest =>
      match rest with
      | b :: rest' =>
          if rule_others a b || rule_line_i a b || rule_line_u a b
          then S (count_moras rest')
          else if rule_one_mora a then S (count_moras rest)
          else count_moras rest
      | [] => if rule_one_mora a then 1%nat else O
      end
  end.

(** The fields validated before [mora_count] that its validator reads from
    [values]; [None] for a key that is not in the dict. *)
Record values : Type := {
  pronunciation : option (list N);
  accent_type : option Z
}.

(** [UserDictWord.check_mora_count_and_accent_type], on an [int] or [None] *)
Definition check_mora_count_and_accent_type (mora_count : option Z) (vs : values) :
    word_error + option Z :=
  match pronunciation vs, accent_type vs with
  | Some pron, Some accent =>
      let mora_count :=
        match mora_count with
        | Some m => m
        | None => Z.of_nat (count_moras pron)
        end in
      if negb ((0 <=? accent) && (accent <=? mora_count))
      then inl (WrongAccentType accent mora_count)
      else inr (Some mora_count)
  | _, _ => inr mora_count
  end.

(** What [check_is_katakana] lets through, said of the string: it is not
    empty, all its characters are katakana, a small kana is followed by a
    small kana only when the follower is ッ and it is not ッ itself, and ヮ
    has ク or グ before it unless it comes first. *)
Definition valid_pronunciation (p : list N) : Prop :=
  p <> [] /\
  (forall c, c ∈ p -> is_katakana c = true) /\
  (forall i a b,
     p !! i = Some a -> p !! S i = Some b ->
     (a ∈ sutegana -> b ∈ sutegana -> b = ord "ッ" /\ a <> ord "ッ") /\
     (b = ord "ヮ" -> a ∈ u "クグ")).

(** * Properties *)

(** ** Validation of [Preset] *)

Section ValidationFacts.
Context {pydantic : Pydantic}.

Lemma errors_of_vap {A B : Type} (f : validated (A -> B)) (x : validated A) :
  errors_of (vap f x) = errors_of f ++ errors_of x.
Proof.
  destruct f as [ef|g], x as [ex|a]; simpl; auto using app_nil_r.
Qed.

Lemma sound_vap {A B : Type} (f : validated (A -> B)) (x : validated A) :
  sound f -> sound x -> sound (vap f x).
Proof.
  destruct f as [ef|g], x as [ex|a]; simpl; auto.
  intros Hf _ Happ. apply app_eq_nil in Happ. tauto.
Qed.

Lemma sound_field {A : Type} (validate : pyval -> option A) default key entries :
  sound (field validate default key entries).
Proof.
  unfold field.
  destruct (dict_get key entries) as [v|]; [destruct (validate v)|destruct default];
    simpl; auto; discriminate.
Qed.

Lemma Preset_init_errors entries :
  errors_of (Preset_init entries) = Preset_field_errors entries.
Proof.
  unfold Preset_init, Preset_field_errors.
  rewrite !errors_of_vap. simpl. rewrite <- !app_assoc. reflexivity.
Qed.

Lemma Preset_init_sound entries : sound (Preset_init entries).
Proof.
  unfold Preset_init.
  repeat (apply sound_vap; [| apply sound_field]). exact I.
Qed.

(** An ill-typed value is reported under the name of its field. *)
Lemma field_invalid {A : Type} (validate : pyval -> option A) default key entries v :
  dict_get key entries = Some v -> validate v = None ->
  field validate default key entries = inl [Invalid key v].
Proof. intros Hget Hval. unfold field. rewrite Hget, Hval. reflexivity. Qed.

Lemma field_missing {A : Type} (validate : pyval -> option A) key entries :
  dict_get key entries = None ->
  field validate None key entries = inl [Missing key].
Proof. intros Hget. unfold field. rewrite Hget. reflexivity. Qed.

(** Dumping a record and validating the dump gives the record back:
    every field holds a value of its declared type. *)
Lemma Preset_validate_model_dump (p : Preset) :
  Preset_validate (model_dump p) = inr p.
Proof. destruct p. reflexivity. Qed.

Lemma validate_all_model_dump (ps : list Preset) :
  validate_all (map model_dump ps) = Some ps.
Proof.
  induction ps as [|p ps IH]; [reflexivity|].
  cbn [map validate_all]. rewrite Preset_validate_model_dump, IH. reflexivity.
Qed.

Lemma parse_obj_as_presets_dump (ps : list Preset) :
  parse_obj_as_presets (PyList (map model_dump ps)) = Some ps.
Proof. apply validate_all_model_dump. Qed.
End ValidationFacts.

(** ** The primitives of the object store *)

Lemma deref_cons w r l :
  deref w (r :: l) =
  match objects w !! r, deref w l with
  | Some p, Some ps => Some (p :: ps)
  | _, _ => None
  end.
Proof.
  unfold deref. cbn.
  destruct (objects w !! r); cbn; [|reflexivity].
  destruct (mapM _ l); reflexivity.
Qed.

Lemma deref_length w l ps : deref w l = Some ps -> length ps = length l.
Proof. intros H. symmetry. eapply length_mapM, H. Qed.

Lemma deref_lookup w l ps i r :
  deref w l = Some ps -> l !! i = Some r ->
  exists p, ps !! i = Some p /\ objects w !! r = Some p.
Proof.
  revert ps i. induction l as [|a l IH]; intros ps i Hd Hl; [discriminate|].
  rewrite deref_cons in Hd.
  destruct (objects w !! a) as [pa|] eqn:Ha; [|discriminate].
  destruct (deref w l) as [ps'|] eqn:Hps; [|discriminate].
  injection Hd as <-. destruct i as [|i]; cbn in *.
  - injection Hl as <-. eauto.
  - eapply IH; eauto.
Qed.

Lemma deref_app w l1 l2 ps1 ps2 :
  deref w l1 = Some ps1 -> deref w l2 = Some ps2 ->
  deref w (l1 ++ l2) = Some (ps1 ++ ps2).
Proof.
  revert ps1. induction l1 as [|a l1 IH]; intros ps1 H1 H2.
  - injection H1 as <-. exact H2.
  - cbn [app]. rewrite deref_cons in *.
    destruct (objects w !! a); [|discriminate].
    destruct (deref w l1) as [ps'|]; [|discriminate].
    injection H1 as <-. rewrite (IH ps' eq_refl H2). reflexivity.
Qed.

Lemma for_each_read_obj w l ps :
  deref w l = Some ps -> for_each read_obj l w = (Return ps, w).
Proof.
  revert ps. induction l as [|a l IH]; intros ps H.
  - injection H as <-. reflexivity.
  - rewrite deref_cons in H.
    destruct (objects w !! a) as [pa|] eqn:Ha; [|discriminate].
    destruct (deref w l) as [ps'|]; [|discriminate].
    injection H as <-.
    cbn [for_each]. unfold bind at 1. unfold read_obj at 1, bind at 1, get_world.
    rewrite Ha. unfold ret at 1. unfold bind at 1. rewrite (IH ps' eq_refl).
    reflexivity.
Qed.

Lemma cache_ids_run w ps :
  cache w = Some ps -> cache_ids w = (Return (map id ps), w).
Proof.
  unfold cache, records, cache_ids. intros H.
  destruct (lists w !! presets (self w)) as [l|] eqn:Hl; [|discriminate].
  unfold bind, get_self, read_list, get_world, bind. rewrite Hl.
  unfold ret at 1. rewrite (for_each_read_obj _ _ _ H). reflexivity.
Qed.

Lemma write_on_file_written t w ps :
  cache w = Some ps ->
  _write_on_file (Written t) w =
  (Return tt, with_file (Present t (Dumped (PyList (map model_dump ps)))) w).
Proof.
  unfold cache, records, _write_on_file. intros H.
  destruct (lists w !! presets (self w)) as [l|] eqn:Hl; [|discriminate].
  unfold bind, get_self, read_list, get_world, bind. rewrite Hl.
  unfold ret at 1. rewrite (for_each_read_obj _ _ _ H). reflexivity.
Qed.

Lemma write_on_file_fails e residue w :
  _write_on_file (WriteFails e residue) w = (Raise e, with_file residue w).
Proof. reflexivity. Qed.

Lemma cache_inv w ps :
  cache w = Some ps -> exists l, cache_refs w = Some l /\ deref w l = Some ps.
Proof.
  unfold cache, records, cache_refs.
  destruct (lists w !! presets (self w)) as [l|]; [eauto | discriminate].
Qed.

Lemma cache_intro w l ps :
  cache_refs w = Some l -> deref w l = Some ps -> cache w = Some ps.
Proof. unfold cache, records, cache_refs. intros -> H. exact H. Qed.

(** ** Running computations *)

Lemma bind_return {A B : Type} (m : M A) (k : A -> M B) w a w' :
  m w = (Return a, w') -> bind m k w = k a w'.
Proof. intros H. unfold bind. rewrite H. reflexivity. Qed.

Lemma bind_raise {A B : Type} (m : M A) (k : A -> M B) w e w' :
  m w = (Raise e, w') -> bind m k w = (Raise e, w').
Proof. intros H. unfold bind. rewrite H. reflexivity. Qed.

Lemma bind_returns {A B : Type} (m : M A) (k : A -> M B) w b w' :
  bind m k w = (Return b, w') ->
  exists a w1, m w = (Return a, w1) /\ k a w1 = (Return b, w').
Proof.
  unfold bind. destruct (m w) as [[a|e|] w1]; [eauto | discriminate | discriminate].
Qed.

Lemma try_except_return {A : Type} (m : M A) handler w a w' :
  m w = (Return a, w') -> try_except m handler w = (Return a, w').
Proof. intros H. unfold try_except. rewrite H. reflexivity. Qed.

Lemma try_except_raise {A : Type} (m : M A) handler w e w' :
  m w = (Raise e, w') -> try_except m handler w = handler e w'.
Proof. intros H. unfold try_except. rewrite H. reflexivity. Qed.

(** One step of a computation whose first action is known to return. *)
Tactic Notation "advance" uconstr(H) :=
  rewrite (bind_return _ _ _ _ _ H).

Lemma read_obj_run w r p :
  objects w !! r = Some p -> read_obj r w = (Return p, w).
Proof. intros H. unfold read_obj, bind, get_world. rewrite H. reflexivity. Qed.

Lemma read_list_run w r l :
  lists w !! r = Some l -> read_list r w = (Return l, w).
Proof. intros H. unfold read_list, bind, get_world. rewrite H. reflexivity. Qed.

Lemma list_getitem_run w lst l i x :
  lists w !! lst = Some l -> l !! i = Some x ->
  list_getitem lst i w = (Return x, w).
Proof.
  intros Hl Hi. unfold list_getitem.
  rewrite (bind_return _ _ _ _ _ (read_list_run _ _ _ Hl)), Hi. reflexivity.
Qed.

Lemma list_setitem_run w lst l i x :
  lists w !! lst = Some l -> (i < length l)%nat ->
  list_setitem lst i x w = (Return tt, with_lists (<[lst := <[i := x]> l]> (lists w)) w).
Proof.
  intros Hl Hi. unfold list_setitem.
  advance (read_list_run _ _ _ Hl).
  destruct (decide _); [reflexivity | contradiction].
Qed.

Lemma list_append_run w lst l x :
  lists w !! lst = Some l ->
  list_append lst x w = (Return tt, with_lists (<[lst := l ++ [x]]> (lists w)) w).
Proof.
  intros Hl. unfold list_append.
  advance (read_list_run _ _ _ Hl). reflexivity.
Qed.

Lemma list_pop_last_run w lst l x :
  lists w !! lst = Some (l ++ [x]) ->
  list_pop_last lst w = (Return x, with_lists (<[lst := l]> (lists w)) w).
Proof.
  intros Hl. unfold list_pop_last.
  advance (read_list_run _ _ _ Hl).
  rewrite last_snoc, removelast_last. reflexivity.
Qed.

Lemma list_pop_run w lst l i x :
  lists w !! lst = Some l -> l !! i = Some x ->
  list_pop lst i w = (Return x, with_lists (<[lst := delete i l]> (lists w)) w).
Proof.
  intros Hl Hi. unfold list_pop.
  rewrite (bind_return _ _ _ _ _ (read_list_run _ _ _ Hl)), Hi. reflexivity.
Qed.

Lemma list_insert_run w lst l i x :
  lists w !! lst = Some l ->
  list_insert lst i x w =
  (Return tt, with_lists (<[lst := take i l ++ x :: drop i l]> (lists w)) w).
Proof.
  intros Hl. unfold list_insert.
  advance (read_list_run _ _ _ Hl). reflexivity.
Qed.

(** Writing a list object twice keeps the last value; writing back what it
    holds changes nothing. *)
Lemma lists_insert_back (ls : list (list nat)) lst l l' :
  ls !! lst = Some l -> <[lst := l]> (<[lst := l']> ls) = ls.
Proof.
  intros H. rewrite list_insert_insert_eq. apply list_insert_id, H.
Qed.

Lemma set_id_same (p : Preset) : set_id p (id p) = p.
Proof. destruct p. reflexivity. Qed.

(** The loop [for i in range(n): ... else: ...] *)
Lemma for_range_else_exhausted {A : Type} (body : nat -> M (option A)) i n orelse w :
  (forall j, (i <= j < i + n)%nat -> body j w = (Return None, w)) ->
  for_range_else body i n orelse w = orelse w.
Proof.
  revert i. induction n as [|n IH]; intros i H; [reflexivity|].
  cbn [for_range_else]. rewrite (bind_return _ _ _ _ _ (H i ltac:(lia))).
  apply IH. intros j Hj. apply H. lia.
Qed.

Lemma for_range_else_break {A : Type} (body : nat -> M (option A)) i n k orelse w a w' :
  (k < n)%nat ->
  (forall j, (i <= j < i + k)%nat -> body j w = (Return None, w)) ->
  body (i + k)%nat w = (Return (Some a), w') ->
  for_range_else body i n orelse w = (Return a, w').
Proof.
  revert i n. induction k as [|k IH]; intros i n Hk Hbefore Hat.
  - destruct n as [|n]; [lia|]. cbn [for_range_else].
    rewrite Nat.add_0_r in Hat. advance Hat. reflexivity.
  - destruct n as [|n]; [lia|]. cbn [for_range_else].
    rewrite (bind_return _ _ _ _ _ (Hbefore i ltac:(lia))).
    apply IH; [lia | |].
    + intros j Hj. apply Hbefore. lia.
    + replace (S i + k)%nat with (i + S k)%nat by lia. exact Hat.
Qed.

(** ** [_refresh_cache] *)

(** [len(ids) != len(set(ids))] tests for a repeated id. *)
Lemma remove_dups_length_le (l : list Z) : (length (remove_dups l) <= length l)%nat.
Proof.
  induction l as [|x l IH]; cbn; [lia|].
  destruct (decide_rel elem_of x l); cbn; lia.
Qed.

Lemma remove_dups_length_NoDup (l : list Z) :
  length l = length (remove_dups l) <-> NoDup l.
Proof.
  induction l as [|x l IH]; cbn.
  - split; [constructor | reflexivity].
  - destruct (decide_rel elem_of x l) as [Hin|Hnin]; cbn.
    + split.
      * pose proof (remove_dups_length_le l). lia.
      * intros Hnd. apply NoDup_cons in Hnd. tauto.
    + rewrite NoDup_cons. split.
      * intros H. split; [exact Hnin|]. apply IH. lia.
      * intros [_ H]. apply IH in H. lia.
Qed.

Lemma for_each_new_obj parsed w :
  for_each new_obj parsed w =
  (Return (seq (length (objects w)) (length parsed)),
   with_objects (objects w ++ parsed) w).
Proof.
  revert w. induction parsed as [|p parsed IH]; intros w.
  - cbn. rewrite app_nil_r. destruct w; reflexivity.
  - cbn [for_each]. unfold bind at 1. unfold new_obj at 1.
    unfold bind at 1, get_world, bind at 1, modify, ret at 1.
    unfold bind at 1. rewrite IH. cbn.
    rewrite length_app, <- app_assoc. cbn.
    replace (length (objects w) + 1)%nat with (S (length (objects w))) by lia.
    reflexivity.
Qed.

Lemma deref_seq_lookup w n (ps : list Preset) :
  (forall i p, ps !! i = Some p -> objects w !! (n + i)%nat = Some p) ->
  deref w (seq n (length ps)) = Some ps.
Proof.
  revert n. induction ps as [|p ps IH]; intros n H; [reflexivity|].
  cbn [length seq]. rewrite deref_cons.
  pose proof (H 0%nat p eq_refl) as H0. rewrite Nat.add_0_r in H0.
  rewrite H0, IH; [reflexivity|].
  intros i q Hq. replace (S n + i)%nat with (n + S i)%nat by lia.
  apply H. exact Hq.
Qed.

Lemma deref_seq (os ps : list Preset) w :
  objects w = os ++ ps -> deref w (seq (length os) (length ps)) = Some ps.
Proof.
  intros Hw. apply deref_seq_lookup. intros i p Hp.
  rewrite Hw, lookup_app_r by lia.
  replace (length os + i - length os)%nat with i by lia. exact Hp.
Qed.

Lemma cache_reloaded t parsed w : cache (reloaded t parsed w) = Some parsed.
Proof.
  unfold cache, records. cbn.
  rewrite lookup_app_r, Nat.sub_diag by lia. cbn.
  apply deref_seq. reflexivity.
Qed.

Section RefreshCache.
Context {pydantic : Pydantic} {yaml : Yaml}.

Lemma refresh_cache_absent w :
  file w = Absent ->
  _refresh_cache w = (Raise (PresetInternalError msg_file_not_found), w).
Proof. intros H. unfold _refresh_cache, bind, get_world. rewrite H. reflexivity. Qed.

Lemma refresh_cache_fresh w t data :
  file w = Present t data ->
  PrimFloat.eqb t (last_modified_time (self w)) = true ->
  _refresh_cache w = (Return tt, w).
Proof.
  intros H Ht. unfold _refresh_cache, bind, get_world. rewrite H, Ht. reflexivity.
Qed.

Lemma refresh_cache_load_error w t data e :
  file w = Present t data ->
  PrimFloat.eqb t (last_modified_time (self w)) = false ->
  safe_load data = inl e ->
  _refresh_cache w = (Raise e, w).
Proof.
  intros H Ht Hload. unfold _refresh_cache, bind, get_world.
  rewrite H, Ht, Hload. reflexivity.
Qed.

Lemma refresh_cache_unloadable w t e :
  file w = Present t (Unloadable e) ->
  PrimFloat.eqb t (last_modified_time (self w)) = false ->
  _refresh_cache w = (Raise e, w).
Proof. intros H Ht. apply (refresh_cache_load_error w t _ e H Ht). reflexivity. Qed.

Lemma refresh_cache_null w t :
  file w = Present t (Document PyNone) ->
  PrimFloat.eqb t (last_modified_time (self w)) = false ->
  _refresh_cache w = (Raise (PresetInternalError msg_file_empty), w).
Proof.
  intros H Ht. unfold _refresh_cache, bind, get_world. rewrite H, Ht. reflexivity.
Qed.

Lemma refresh_cache_loaded w t data obj parsed :
  file w = Present t data ->
  PrimFloat.eqb t (last_modified_time (self w)) = false ->
  safe_load data = inr obj ->
  parse_obj_as_presets obj = Some parsed ->
  NoDup (map id parsed) ->
  _refresh_cache w = (Return tt, reloaded t parsed w).
Proof.
  intros H Ht Hload Hparse Hnd. unfold _refresh_cache, bind at 1, get_world.
  rewrite H, Ht, Hload.
  destruct obj; try discriminate Hparse;
    rewrite Hparse; unfold bind at 1; rewrite for_each_new_obj;
    unfold bind, new_list, get_world, modify, ret; cbn;
    (destruct (decide _) as [_|Hne]; [reflexivity|]);
    exfalso; apply Hne, remove_dups_length_NoDup, Hnd.
Qed.

Lemma refresh_cache_reload w t obj parsed :
  file w = Present t (Document obj) ->
  PrimFloat.eqb t (last_modified_time (self w)) = false ->
  parse_obj_as_presets obj = Some parsed ->
  NoDup (map id parsed) ->
  _refresh_cache w = (Return tt, reloaded t parsed w).
Proof.
  intros H Ht. apply (refresh_cache_loaded w t _ obj parsed H Ht). reflexivity.
Qed.

(** A successful reconcile either found the cache fresh or replaced it by
    what the file holds. *)
Lemma refresh_cache_returns w w1 :
  _refresh_cache w = (Return tt, w1) ->
  w1 = w \/
  exists t data obj parsed,
    file w = Present t data /\
    safe_load data = inr obj /\
    parse_obj_as_presets obj = Some parsed /\
    NoDup (map id parsed) /\
    w1 = reloaded t parsed w.
Proof.
  unfold _refresh_cache, bind at 1, get_world.
  destruct (file w) as [|t data] eqn:Hf; [discriminate|].
  destruct (PrimFloat.eqb _ _) eqn:Ht.
  { intros [= <-]. left. reflexivity. }
  destruct (safe_load data) as [e|obj] eqn:Hload; [discriminate|].
  intros Hrun. right. exists t, data, obj.
  destruct (parse_obj_as_presets obj) as [parsed|] eqn:Hparse.
  2:{ destruct obj; discriminate Hrun. }
  exists parsed.
  destruct obj; try discriminate Hparse;
    unfold bind at 1 in Hrun; rewrite for_each_new_obj in Hrun;
    unfold bind, new_list, get_world, modify, ret in Hrun; cbn in Hrun;
    (destruct (decide _) as [Hlen|]; [|discriminate]);
    injection Hrun as <-;
    repeat split; try reflexivity; try assumption;
    apply remove_dups_length_NoDup, Hlen.
Qed.
End RefreshCache.


(** ** [add_preset] *)

Lemma foldl_max_ge (xs : list Z) (a : Z) : a <= foldl Z.max a xs.
Proof.
  revert a. induction xs as [|x xs IH]; intros a; cbn; [lia|].
  specialize (IH (Z.max a x)). lia.
Qed.

(** [max] returns an element of the list that bounds all the others. *)
Lemma foldl_max_spec (x : Z) (rest : list Z) :
  foldl Z.max x rest ∈ x :: rest /\
  forall y, y ∈ x :: rest -> y <= foldl Z.max x rest.
Proof.
  revert x. induction rest as [|z rest IH]; intros x; cbn.
  - split; [left|]. intros y Hy. apply list_elem_of_singleton in Hy. lia.
  - destruct (IH (Z.max x z)) as [Hin Hle]. split.
    + apply elem_of_cons in Hin as [Heq|Hin].
      * rewrite Heq. destruct (Z.max_spec x z) as [[_ ->]|[_ ->]];
          [right; left | left].
      * right. right. exact Hin.
    + intros y Hy. pose proof (foldl_max_ge rest (Z.max x z)).
      apply elem_of_cons in Hy as [->|Hy]; [lia|].
      apply elem_of_cons in Hy as [->|Hy]; [lia|].
      apply Hle. right. exact Hy.
Qed.

(** The id [add_preset] issues is not one the cache holds. *)
Lemma issue_id_fresh x ids n : issue_id x ids = Some n -> n ∉ ids.
Proof.
  unfold issue_id.
  destruct (Z.ltb_spec x 0) as [Hneg|Hpos]; cbn [orb].
  - destruct ids as [|y rest]; [discriminate|]. intros [= <-] Hin.
    apply (proj2 (foldl_max_spec y rest)) in Hin. lia.
  - destruct (bool_decide_reflect (x ∈ ids)) as [Hin|Hnin].
    + destruct ids as [|y rest]; [discriminate|]. intros [= <-] Hin'.
      apply (proj2 (foldl_max_spec y rest)) in Hin'. lia.
    + intros [= <-]. exact Hnin.
Qed.

(** Overwriting one object: the records a list of references denotes. *)
Lemma deref_insert w l ps r q :
  deref w l = Some ps -> (r < length (objects w))%nat ->
  deref (with_objects (<[r := q]> (objects w)) w) l =
  Some (overwritten r q l ps).
Proof.
  intros Hd Hr. revert ps Hd. induction l as [|a l IH]; intros ps Hd.
  - injection Hd as <-. reflexivity.
  - rewrite deref_cons in Hd.
    destruct (objects w !! a) as [pa|] eqn:Ha; [|discriminate].
    destruct (deref w l) as [ps'|]; [|discriminate].
    injection Hd as <-. rewrite deref_cons, (IH ps' eq_refl).
    unfold overwritten. cbn.
    destruct (decide (a = r)) as [->|Hne].
    + rewrite list_lookup_insert_eq by exact Hr. reflexivity.
    + rewrite list_lookup_insert_ne by congruence. rewrite Ha. reflexivity.
Qed.

Lemma overwritten_untouched (l : list nat) (ps : list Preset) r q :
  r ∉ l -> overwritten r q l ps = ps \/ length ps <> length l.
Proof.
  unfold overwritten. revert ps. induction l as [|a l IH]; intros [|p ps] Hr; cbn; auto.
  apply not_elem_of_cons in Hr as [Hne Hr].
  destruct (decide (a = r)); [congruence|].
  destruct (IH ps Hr) as [->|Hlen]; [left; reflexivity | right; lia].
Qed.

Section AddPreset.
Context {pydantic : Pydantic} {yaml : Yaml}.
Variables (w w1 : world) (l : list nat) (ps : list Preset) (preset : nat) (p : Preset).
Hypothesis Hrefresh : _refresh_cache w = (Return tt, w1).
Hypothesis Hl : cache_refs w1 = Some l.
Hypothesis Hd : deref w1 l = Some ps.
Hypothesis Hp : objects w1 !! preset = Some p.

Lemma add_preset_cache : cache w1 = Some ps.
Proof. unfold cache, records. unfold cache_refs in Hl. rewrite Hl. exact Hd. Qed.

Lemma add_preset_no_id io :
  issue_id (id p) (map id ps) = None ->
  add_preset io preset w = (Raise ValueError, w1).
Proof.
  intros Hissue. unfold add_preset.
  advance Hrefresh.
  advance (read_obj_run _ _ _ Hp).
  advance (cache_ids_run _ _ add_preset_cache).
  unfold issue_id in Hissue.
  destruct ((id p <? 0) || bool_decide (id p ∈ map id ps)); [|discriminate].
  destruct (map id ps); [reflexivity | discriminate].
Qed.

Lemma add_preset_issue io n :
  issue_id (id p) (map id ps) = Some n ->
  add_preset io preset w =
  (s <- get_self ;;
   list_append (presets s) preset ;;
   try_except (_write_on_file io)
     (fun err =>
        list_pop_last (presets s) ;;
        if is_FileNotFoundError err
        then raise (PresetInternalError msg_file_not_found)
        else raise err) ;;
   p' <- read_obj preset ;;
   ret (id p'))
    (with_objects (<[preset := set_id p n]> (objects w1)) w1).
Proof.
  intros Hissue. unfold add_preset.
  advance Hrefresh.
  advance (read_obj_run _ _ _ Hp).
  advance (cache_ids_run _ _ add_preset_cache).
  unfold issue_id in Hissue.
  destruct ((id p <? 0) || bool_decide (id p ∈ map id ps)).
  - destruct (map id ps) as [|y rest]; [discriminate|].
    injection Hissue as <-. reflexivity.
  - injection Hissue as <-. rewrite set_id_same.
    rewrite (list_insert_id _ _ _ Hp).
    unfold bind at 1, ret at 1. destruct w1; reflexivity.
Qed.

Lemma add_preset_written t n :
  issue_id (id p) (map id ps) = Some n ->
  add_preset (Written t) preset w =
  (Return n,
   {| objects := <[preset := set_id p n]> (objects w1);
      lists := <[presets (self w1) := l ++ [preset]]> (lists w1);
      self := self w1;
      file := Present t (Dumped (PyList (map model_dump (overwritten preset (set_id p n) l ps ++ [set_id p n])))) |}).
Proof.
  intros Hissue. rewrite (add_preset_issue _ n Hissue).
  pose proof (lookup_lt_Some _ _ _ Hp) as Hlt.
  pose proof (lookup_lt_Some _ _ _ Hl) as Hs.
  unfold bind at 1, get_self at 1. cbn [self with_objects].
  erewrite bind_return by (apply list_append_run; exact Hl).
  erewrite bind_return.
  2:{ apply try_except_return. apply write_on_file_written.
      unfold cache, records. cbn.
      rewrite list_lookup_insert_eq by exact Hs.
      apply deref_app.
      - apply (deref_insert w1 l ps preset (set_id p n) Hd Hlt).
      - rewrite deref_cons. cbn. rewrite list_lookup_insert_eq by exact Hlt.
        reflexivity. }
  erewrite bind_return.
  2:{ apply read_obj_run. cbn. apply list_lookup_insert_eq, Hlt. }
  reflexivity.
Qed.

Lemma add_preset_write_fails e residue n :
  issue_id (id p) (map id ps) = Some n ->
  add_preset (WriteFails e residue) preset w =
  (Raise (translated e),
   {| objects := <[preset := set_id p n]> (objects w1);
      lists := lists w1;
      self := self w1;
      file := residue |}).
Proof.
  intros Hissue. rewrite (add_preset_issue _ n Hissue).
  unfold bind at 1, get_self at 1. cbn [self with_objects].
  erewrite bind_return by (apply list_append_run; exact Hl).
  erewrite bind_raise; [reflexivity|].
  erewrite try_except_raise by apply write_on_file_fails.
  erewrite bind_return.
  2:{ apply list_pop_last_run. cbn.
      apply list_lookup_insert_eq, (lookup_lt_Some _ _ _ Hl). }
  cbn. rewrite (lists_insert_back _ _ _ _ Hl).
  unfold translated. destruct (is_FileNotFoundError e); reflexivity.
Qed.
End AddPreset.


(** ** [update_preset] and [delete_preset] *)

Lemma delete_then_insert {A : Type} (l : list A) k x :
  l !! k = Some x -> take k (delete k l) ++ x :: drop k (delete k l) = l.
Proof.
  revert k. induction l as [|a l IH]; intros k H; [discriminate|].
  destruct k as [|k]; simpl in *.
  - injection H as ->. reflexivity.
  - f_equal. apply IH, H.
Qed.

Lemma deref_delete w l ps k :
  deref w l = Some ps -> deref w (delete k l) = Some (delete k ps).
Proof.
  revert ps k. induction l as [|a l IH]; intros ps k Hd.
  - injection Hd as <-. destruct k; reflexivity.
  - rewrite deref_cons in Hd.
    destruct (objects w !! a) as [pa|] eqn:Ha; [|discriminate].
    destruct (deref w l) as [ps'|] eqn:Hps; [|discriminate].
    injection Hd as <-. destruct k as [|k].
    + exact Hps.
    + change (delete (S k) (a :: l)) with (a :: delete k l).
      change (delete (S k) (pa :: ps')) with (pa :: delete k ps').
      rewrite deref_cons, Ha, (IH ps' k eq_refl). reflexivity.
Qed.

Lemma deref_list_insert w l ps k r p :
  deref w l = Some ps -> objects w !! r = Some p ->
  deref w (<[k := r]> l) = Some (<[k := p]> ps).
Proof.
  intros Hd Hr. revert ps k Hd. induction l as [|a l IH]; intros ps k Hd.
  - injection Hd as <-. destruct k; reflexivity.
  - rewrite deref_cons in Hd.
    destruct (objects w !! a) as [pa|] eqn:Ha; [|discriminate].
    destruct (deref w l) as [ps'|] eqn:Hps; [|discriminate].
    injection Hd as <-. destruct k as [|k].
    + change (<[0%nat := r]> (a :: l)) with (r :: l).
      rewrite deref_cons, Hr, Hps. reflexivity.
    + change (<[S k := r]> (a :: l)) with (a :: <[k := r]> l).
      change (<[S k := p]> (pa :: ps')) with (pa :: <[k := p]> ps').
      rewrite deref_cons, Ha, (IH ps' k eq_refl). reflexivity.
Qed.

Section UpdateDelete.
Context {pydantic : Pydantic} {yaml : Yaml}.
Variables (w w1 : world) (l : list nat) (ps : list Preset).
Hypothesis Hrefresh : _refresh_cache w = (Return tt, w1).
Hypothesis Hl : cache_refs w1 = Some l.
Hypothesis Hd : deref w1 l = Some ps.

(** One turn of the search loop of [update_preset] or [delete_preset] on
    an entry whose id is not the one looked for. *)
Lemma search_miss {A : Type} (target : Z) (hit : nat -> nat -> M (option A)) j :
  (j < length l)%nat ->
  (forall c, ps !! j = Some c -> id c <> target) ->
  (cur <- list_getitem (presets (self w1)) j ;;
   c <- read_obj cur ;;
   if id c =? target then hit j cur else ret None) w1 = (Return None, w1).
Proof.
  intros Hj Hmiss.
  destruct (lookup_lt_is_Some_2 l j Hj) as [cur Hcur].
  destruct (deref_lookup _ _ _ _ _ Hd Hcur) as (c & Hc & Hobj).
  advance (list_getitem_run _ _ _ _ _ Hl Hcur).
  advance (read_obj_run _ _ _ Hobj).
  destruct (Z.eqb_spec (id c) target) as [Heq|_]; [|reflexivity].
  destruct (Hmiss c Hc Heq).
Qed.

Lemma search_hit {A : Type} (target : Z) (hit : nat -> nat -> M (option A)) k cur c :
  l !! k = Some cur -> ps !! k = Some c -> id c = target ->
  (cur <- list_getitem (presets (self w1)) k ;;
   c <- read_obj cur ;;
   if id c =? target then hit k cur else ret None) w1 = hit k cur w1.
Proof.
  intros Hcur Hc Heq.
  destruct (deref_lookup _ _ _ _ _ Hd Hcur) as (c' & Hc' & Hobj).
  assert (c' = c) as -> by congruence.
  advance (list_getitem_run _ _ _ _ _ Hl Hcur).
  advance (read_obj_run _ _ _ Hobj).
  rewrite (proj2 (Z.eqb_eq _ _) Heq). reflexivity.
Qed.

Lemma delete_preset_unknown io target :
  target ∉ map id ps ->
  delete_preset io target w =
  (Raise (PresetInputError msg_no_delete_target), w1).
Proof.
  intros Hnot. unfold delete_preset.
  advance Hrefresh.
  unfold bind at 1, get_self at 1.
  advance (read_list_run _ _ _ Hl).
  erewrite bind_raise; [reflexivity|].
  rewrite for_range_else_exhausted; [reflexivity|].
  intros j Hj.
  apply (search_miss target
           (fun i cur => b <- list_pop (presets (self w1)) i ;; ret (Some (i, b))));
    [lia|].
  intros c Hc Heq. apply Hnot. rewrite <- Heq.
  apply list_elem_of_fmap. exists c. split; [reflexivity|].
  apply list_elem_of_lookup. eauto.
Qed.

Lemma update_preset_unknown io preset p :
  objects w1 !! preset = Some p ->
  id p ∉ map id ps ->
  update_preset io preset w =
  (Raise (PresetInputError msg_no_update_target), w1).
Proof.
  intros Hp Hnot. unfold update_preset.
  advance Hrefresh.
  unfold bind at 1, get_self at 1.
  advance (read_list_run _ _ _ Hl).
  erewrite bind_raise; [reflexivity|].
  rewrite for_range_else_exhausted; [reflexivity|].
  intros j Hj.
  destruct (lookup_lt_is_Some_2 l j ltac:(lia)) as [cur Hcur].
  destruct (deref_lookup _ _ _ _ _ Hd Hcur) as (c & Hc & Hobj).
  advance (list_getitem_run _ _ _ _ _ Hl Hcur).
  advance (read_obj_run _ _ _ Hobj).
  advance (read_obj_run _ _ _ Hp).
  destruct (Z.eqb_spec (id c) (id p)) as [Heq|_]; [|reflexivity].
  exfalso. apply Hnot. rewrite <- Heq.
  apply list_elem_of_fmap. exists c. split; [reflexivity|].
  apply list_elem_of_lookup. eauto.
Qed.

Section Found.
Variables (target : Z) (k : nat) (cur : nat) (c : Preset).
Hypothesis Hcur : l !! k = Some cur.
Hypothesis Hfind : list_find (fun q => id q = target) ps = Some (k, c).

Lemma delete_preset_search :
  for_range_else
    (fun i =>
       cur <- list_getitem (presets (self w1)) i ;;
       c <- read_obj cur ;;
       if id c =? target
       then b <- list_pop (presets (self w1)) i ;; ret (Some (i, b))
       else ret None)
    0 (length l)
    (raise (PresetInputError msg_no_delete_target)) w1 =
  (Return (k, cur),
   with_lists (<[presets (self w1) := delete k l]> (lists w1)) w1).
Proof.
  apply list_find_Some in Hfind as (Hc & Heq & Hbefore).
  apply (for_range_else_break _ 0 (length l) k).
  - apply (lookup_lt_Some _ _ _ Hcur).
  - intros j Hj.
    apply (search_miss target
             (fun i cur => b <- list_pop (presets (self w1)) i ;; ret (Some (i, b)))).
    + pose proof (lookup_lt_Some _ _ _ Hcur). lia.
    + intros c' Hc'. apply (Hbefore j c' Hc'). lia.
  - cbn [Nat.add].
    rewrite (search_hit target
               (fun i cur => b <- list_pop (presets (self w1)) i ;; ret (Some (i, b)))
               k cur c Hcur Hc Heq).
    advance (list_pop_run _ _ _ _ _ Hl Hcur).
    reflexivity.
Qed.

Lemma delete_preset_written t :
  delete_preset (Written t) target w =
  (Return target,
   {| objects := objects w1;
      lists := <[presets (self w1) := delete k l]> (lists w1);
      self := self w1;
      file := Present t (Dumped (PyList (map model_dump (delete k ps)))) |}).
Proof.
  unfold delete_preset.
  advance Hrefresh.
  unfold bind at 1, get_self at 1.
  advance (read_list_run _ _ _ Hl).
  advance delete_preset_search.
  erewrite bind_return; [reflexivity|].
  apply try_except_return.
  rewrite (write_on_file_written t _ (delete k ps)); [reflexivity|].
  unfold cache, records. cbn.
  rewrite list_lookup_insert_eq by apply (lookup_lt_Some _ _ _ Hl).
  apply (deref_delete w1), Hd.
Qed.

(** [except FileNotFoundError]: the entry is put back. *)
Lemma delete_preset_file_not_found residue :
  delete_preset (WriteFails FileNotFoundError residue) target w =
  (Raise (PresetInternalError msg_file_not_found),
   {| objects := objects w1; lists := lists w1; self := self w1;
      file := residue |}).
Proof.
  unfold delete_preset.
  advance Hrefresh.
  unfold bind at 1, get_self at 1.
  advance (read_list_run _ _ _ Hl).
  advance delete_preset_search.
  erewrite bind_raise; [reflexivity|].
  erewrite try_except_raise by apply write_on_file_fails.
  cbn [is_FileNotFoundError fst snd].
  erewrite bind_return.
  2:{ apply list_insert_run. cbn.
      apply list_lookup_insert_eq, (lookup_lt_Some _ _ _ Hl). }
  cbn. rewrite (delete_then_insert _ _ _ Hcur).
  rewrite (lists_insert_back _ _ _ _ Hl). reflexivity.
Qed.

(** Any other exception leaves the handler aside: nothing is put
    back. *)
Lemma delete_preset_other_error e residue :
  is_FileNotFoundError e = false ->
  delete_preset (WriteFails e residue) target w =
  (Raise e,
   {| objects := objects w1;
      lists := <[presets (self w1) := delete k l]> (lists w1);
      self := self w1;
      file := residue |}).
Proof.
  intros He. unfold delete_preset.
  advance Hrefresh.
  unfold bind at 1, get_self at 1.
  advance (read_list_run _ _ _ Hl).
  advance delete_preset_search.
  erewrite bind_raise; [reflexivity|].
  erewrite try_except_raise by apply write_on_file_fails.
  rewrite He. reflexivity.
Qed.
End Found.

Section Replaced.
Variables (preset : nat) (p : Preset) (k : nat) (cur : nat) (c : Preset).
Hypothesis Hp : objects w1 !! preset = Some p.
Hypothesis Hcur : l !! k = Some cur.
Hypothesis Hfind : list_find (fun q => id q = id p) ps = Some (k, c).

Lemma update_preset_search :
  for_range_else
    (fun i =>
       cur <- list_getitem (presets (self w1)) i ;;
       c <- read_obj cur ;;
       p <- read_obj preset ;;
       if id c =? id p
       then list_setitem (presets (self w1)) i preset ;; ret (Some (i, cur))
       else ret None)
    0 (length l)
    (raise (PresetInputError msg_no_update_target)) w1 =
  (Return (k, cur),
   with_lists (<[presets (self w1) := <[k := preset]> l]> (lists w1)) w1).
Proof.
  apply list_find_Some in Hfind as (Hc & Heq & Hbefore).
  pose proof (lookup_lt_Some _ _ _ Hcur) as Hk.
  apply (for_range_else_break _ 0 (length l) k); [exact Hk | |].
  - intros j Hj.
    destruct (lookup_lt_is_Some_2 l j ltac:(lia)) as [cur' Hcur'].
    destruct (deref_lookup _ _ _ _ _ Hd Hcur') as (c' & Hc' & Hobj).
    advance (list_getitem_run _ _ _ _ _ Hl Hcur').
    advance (read_obj_run _ _ _ Hobj).
    advance (read_obj_run _ _ _ Hp).
    destruct (Z.eqb_spec (id c') (id p)) as [Heq'|_]; [|reflexivity].
    destruct (Hbefore j c' Hc' ltac:(lia) Heq').
  - cbn [Nat.add].
    destruct (deref_lookup _ _ _ _ _ Hd Hcur) as (c' & Hc' & Hobj).
    assert (c' = c) as -> by congruence.
    advance (list_getitem_run _ _ _ _ _ Hl Hcur).
    advance (read_obj_run _ _ _ Hobj).
    advance (read_obj_run _ _ _ Hp).
    rewrite (proj2 (Z.eqb_eq _ _) Heq).
    advance (list_setitem_run _ _ _ _ _ Hl Hk).
    reflexivity.
Qed.

Lemma update_preset_written t :
  update_preset (Written t) preset w =
  (Return (id p),
   {| objects := objects w1;
      lists := <[presets (self w1) := <[k := preset]> l]> (lists w1);
      self := self w1;
      file := Present t (Dumped (PyList (map model_dump (<[k := p]> ps)))) |}).
Proof.
  unfold update_preset.
  advance Hrefresh.
  unfold bind at 1, get_self at 1.
  advance (read_list_run _ _ _ Hl).
  advance update_preset_search.
  erewrite bind_return.
  2:{ apply try_except_return.
      rewrite (write_on_file_written t _ (<[k := p]> ps)); [reflexivity|].
      unfold cache, records. cbn.
      rewrite list_lookup_insert_eq by apply (lookup_lt_Some _ _ _ Hl).
      apply (deref_list_insert w1); [exact Hd | exact Hp]. }
  erewrite bind_return by (apply read_obj_run; exact Hp).
  reflexivity.
Qed.

(** [except Exception]: the previous entry is put back at its place. *)
Lemma update_preset_write_fails e residue :
  update_preset (WriteFails e residue) preset w =
  (Raise (translated e),
   {| objects := objects w1; lists := lists w1; self := self w1;
      file := residue |}).
Proof.
  unfold update_preset.
  advance Hrefresh.
  unfold bind at 1, get_self at 1.
  advance (read_list_run _ _ _ Hl).
  advance update_preset_search.
  erewrite bind_raise; [reflexivity|].
  erewrite try_except_raise by apply write_on_file_fails.
  cbn [fst snd].
  erewrite bind_return.
  2:{ apply list_setitem_run.
      - cbn. apply list_lookup_insert_eq, (lookup_lt_Some _ _ _ Hl).
      - rewrite length_insert. apply (lookup_lt_Some _ _ _ Hcur). }
  cbn [with_lists with_file lists objects self file].
  rewrite (list_insert_insert_eq l), (list_insert_id _ _ _ Hcur).
  rewrite (lists_insert_back _ _ _ _ Hl).
  unfold translated. destruct (is_FileNotFoundError e); reflexivity.
Qed.
End Replaced.
End UpdateDelete.

(** ** Uniqueness of ids *)

Lemma map_id_insert_same (ps : list Preset) k c p :
  ps !! k = Some c -> id c = id p -> map id (<[k := p]> ps) = map id ps.
Proof.
  intros Hk Heq. change (id <$> <[k := p]> ps = id <$> ps).
  rewrite list_fmap_insert. apply list_insert_id.
  rewrite list_lookup_fmap, Hk. cbn. congruence.
Qed.

Lemma NoDup_map_id_delete (ps : list Preset) k :
  NoDup (map id ps) -> NoDup (map id (delete k ps)).
Proof.
  change (NoDup (id <$> ps) -> NoDup (id <$> delete k ps)).
  rewrite list_fmap_delete. intros H.
  exact (sublist_NoDup _ _ H (sublist_delete _ k)).
Qed.

Lemma deref_grown w w' l ps :
  (exists more, objects w' = objects w ++ more) ->
  deref w l = Some ps -> deref w' l = Some ps.
Proof.
  intros [more Hobj]. revert ps. induction l as [|a l IH]; intros ps Hd.
  - exact Hd.
  - rewrite deref_cons in *.
    destruct (objects w !! a) as [pa|] eqn:Ha; [|discriminate].
    destruct (deref w l) as [ps'|]; [|discriminate].
    rewrite Hobj, (lookup_app_l_Some _ _ _ _ Ha), (IH ps' eq_refl). exact Hd.
Qed.

Section UniqueIds.
Context {pydantic : Pydantic} {yaml : Yaml}.

Lemma refresh_cache_unique_ids w w1 :
  _refresh_cache w = (Return tt, w1) -> unique_ids w -> unique_ids w1.
Proof.
  intros Hrefresh Hu.
  destruct (refresh_cache_returns _ _ Hrefresh)
    as [->|(t & data & obj & parsed & _ & _ & _ & Hnd & ->)]; [exact Hu|].
  exists parsed. split; [apply cache_reloaded | exact Hnd].
Qed.

(** Reconcile keeps the objects there were and, when it replaces the cache,
    fills it with new ones. *)
Lemma refresh_cache_argument w w1 preset :
  _refresh_cache w = (Return tt, w1) ->
  is_Some (objects w !! preset) ->
  is_Some (objects w1 !! preset) /\
  ((forall l, cache_refs w = Some l -> preset ∉ l) ->
   forall l1, cache_refs w1 = Some l1 -> preset ∉ l1).
Proof.
  intros Hrefresh [p Hp].
  destruct (refresh_cache_returns _ _ Hrefresh)
    as [->|(t & data & obj & parsed & _ & _ & _ & _ & ->)]; [eauto|].
  split.
  - exists p. cbn. apply lookup_app_l_Some, Hp.
  - intros _ l1. unfold cache_refs. cbn.
    rewrite lookup_app_r, Nat.sub_diag by lia. intros [= <-].
    rewrite elem_of_seq. pose proof (lookup_lt_Some _ _ _ Hp). lia.
Qed.

Lemma add_preset_unique_ids w io preset n w' :
  unique_ids w ->
  is_Some (objects w !! preset) ->
  (forall l, cache_refs w = Some l -> preset ∉ l) ->
  add_preset io preset w = (Return n, w') ->
  unique_ids w'.
Proof.
  intros Hu Hex Hdistinct Hrun.
  destruct (bind_returns _ _ _ _ _ Hrun) as ([] & w1 & Hrefresh & _).
  destruct (refresh_cache_unique_ids _ _ Hrefresh Hu) as (ps & Hc & Hnd).
  destruct (cache_inv _ _ Hc) as (l & Hl & Hd).
  destruct (refresh_cache_argument _ _ preset Hrefresh Hex) as [[p Hp] Hfresh].
  specialize (Hfresh Hdistinct l Hl).
  destruct (issue_id (id p) (map id ps)) as [m|] eqn:Hissue.
  2:{ rewrite (add_preset_no_id w w1 l ps preset p Hrefresh Hl Hd Hp io Hissue)
        in Hrun. discriminate Hrun. }
  destruct io as [t|e residue].
  2:{ rewrite (add_preset_write_fails w w1 l ps preset p Hrefresh Hl Hd Hp
                 e residue m Hissue) in Hrun. discriminate Hrun. }
  rewrite (add_preset_written w w1 l ps preset p Hrefresh Hl Hd Hp t m Hissue)
    in Hrun.
  injection Hrun as <- <-.
  pose proof (lookup_lt_Some _ _ _ Hp) as Hlt.
  pose proof (lookup_lt_Some _ _ _ Hl) as Hs.
  exists (ps ++ [set_id p m]). split.
  - unfold cache, records. cbn. rewrite list_lookup_insert_eq by exact Hs.
    apply deref_app.
    + pose proof (deref_insert w1 l ps preset (set_id p m) Hd Hlt) as Hi.
      destruct (overwritten_untouched l ps preset (set_id p m) Hfresh) as [Heq|Hlen].
      * rewrite Heq in Hi. exact Hi.
      * destruct Hlen. apply (deref_length _ _ _ Hd).
    + rewrite deref_cons. cbn. rewrite list_lookup_insert_eq by exact Hlt.
      reflexivity.
  - rewrite map_app. apply NoDup_app. split; [exact Hnd|]. split.
    + intros x Hx Hin. apply list_elem_of_singleton in Hin. cbn in Hin. subst x.
      apply (issue_id_fresh _ _ _ Hissue), Hx.
    + apply NoDup_singleton.
Qed.

Lemma update_preset_unique_ids w io preset n w' :
  unique_ids w ->
  is_Some (objects w !! preset) ->
  update_preset io preset w = (Return n, w') ->
  unique_ids w'.
Proof.
  intros Hu Hex Hrun.
  destruct (bind_returns _ _ _ _ _ Hrun) as ([] & w1 & Hrefresh & _).
  destruct (refresh_cache_unique_ids _ _ Hrefresh Hu) as (ps & Hc & Hnd).
  destruct (cache_inv _ _ Hc) as (l & Hl & Hd).
  destruct (refresh_cache_argument _ _ preset Hrefresh Hex) as [[p Hp] _].
  destruct (list_find (fun q => id q = id p) ps) as [[k c]|] eqn:Hfind.
  2:{ rewrite (update_preset_unknown w w1 l ps Hrefresh Hl Hd io preset p Hp)
        in Hrun; [discriminate Hrun|].
      intros Hin. apply list_elem_of_fmap in Hin as (q & Heq & Hq).
      apply list_find_None in Hfind.
      apply (proj1 (Forall_forall _ _) Hfind q Hq). congruence. }
  pose proof (proj1 (list_find_Some _ _ _ _) Hfind) as (Hk & Heq & _).
  destruct (lookup_lt_is_Some_2 l k) as [cur Hcur].
  { rewrite <- (deref_length _ _ _ Hd). apply (lookup_lt_Some _ _ _ Hk). }
  destruct io as [t|e residue].
  2:{ rewrite (update_preset_write_fails w w1 l ps Hrefresh Hl Hd preset p k cur c
                 Hp Hcur Hfind e residue) in Hrun. discriminate Hrun. }
  rewrite (update_preset_written w w1 l ps Hrefresh Hl Hd preset p k cur c
             Hp Hcur Hfind t) in Hrun.
  injection Hrun as <- <-.
  exists (<[k := p]> ps). split.
  - unfold cache, records. cbn.
    rewrite list_lookup_insert_eq by apply (lookup_lt_Some _ _ _ Hl).
    apply (deref_list_insert w1); [exact Hd | exact Hp].
  - rewrite (map_id_insert_same ps k c p Hk Heq). exact Hnd.
Qed.

Lemma delete_preset_unique_ids w io target n w' :
  unique_ids w ->
  delete_preset io target w = (Return n, w') ->
  unique_ids w'.
Proof.
  intros Hu Hrun.
  destruct (bind_returns _ _ _ _ _ Hrun) as ([] & w1 & Hrefresh & _).
  destruct (refresh_cache_unique_ids _ _ Hrefresh Hu) as (ps & Hc & Hnd).
  destruct (cache_inv _ _ Hc) as (l & Hl & Hd).
  destruct (list_find (fun q => id q = target) ps) as [[k c]|] eqn:Hfind.
  2:{ rewrite (delete_preset_unknown w w1 l ps Hrefresh Hl Hd io target)
        in Hrun; [discriminate Hrun|].
      intros Hin. apply list_elem_of_fmap in Hin as (q & Heq & Hq).
      apply list_find_None in Hfind.
      apply (proj1 (Forall_forall _ _) Hfind q Hq). congruence. }
  pose proof (proj1 (list_find_Some _ _ _ _) Hfind) as (Hk & Heq & _).
  destruct (lookup_lt_is_Some_2 l k) as [cur Hcur].
  { rewrite <- (deref_length _ _ _ Hd). apply (lookup_lt_Some _ _ _ Hk). }
  destruct io as [t|e residue].
  2:{ destruct (is_FileNotFoundError e) eqn:He.
      - destruct e; try discriminate He.
        rewrite (delete_preset_file_not_found w w1 l ps Hrefresh Hl Hd target k cur c
                   Hcur Hfind residue) in Hrun. discriminate Hrun.
      - rewrite (delete_preset_other_error w w1 l ps Hrefresh Hl Hd target k cur c
                   Hcur Hfind e residue He) in Hrun. discriminate Hrun. }
  rewrite (delete_preset_written w w1 l ps Hrefresh Hl Hd target k cur c
             Hcur Hfind t) in Hrun.
  injection Hrun as <- <-.
  exists (delete k ps). split.
  - unfold cache, records. cbn.
    rewrite list_lookup_insert_eq by apply (lookup_lt_Some _ _ _ Hl).
    apply (deref_delete w1), Hd.
  - apply NoDup_map_id_delete, Hnd.
Qed.

Lemma history_unique_ids w w' :
  unique_ids w -> history w w' -> unique_ids w'.
Proof.
  intros Hu Hh. induction Hh as [w|w w1 w2 c io n _ IH Hex Hdi Hrun|w w1 built f _ IH].
  - exact Hu.
  - specialize (IH Hu). destruct c as [preset|preset|target]; cbn in *.
    + eapply add_preset_unique_ids; eauto.
    + eapply update_preset_unique_ids; eauto.
    + eapply delete_preset_unique_ids; eauto.
  - destruct (IH Hu) as (ps & Hc & Hnd). exists ps. split; [|exact Hnd].
    destruct (cache_inv _ _ Hc) as (l & Hl & Hd).
    apply (cache_intro _ l); [exact Hl|].
    apply (deref_grown w1); [exists built; reflexivity | exact Hd].
Qed.

(** X8 (what does hold of C2): from a cache with pairwise-distinct ids, after any
    history of successful calls in which [add_preset] is never given an
    object that the cache holds at that moment, [load_presets] returns
    records with pairwise-distinct ids. *)
Lemma unique_ids_kept w w' lst w'' :
  unique_ids w ->
  history w w' ->
  load_presets w' = (Return lst, w'') ->
  exists ps, records w'' lst = Some ps /\ NoDup (map id ps).
Proof.
  intros Hu Hh Hload.
  pose proof (history_unique_ids _ _ Hu Hh) as Hu'.
  destruct (bind_returns _ _ _ _ _ Hload) as ([] & w1 & Hrefresh & Hrest).
  injection Hrest as <- <-.
  apply (refresh_cache_unique_ids _ _ Hrefresh Hu').
Qed.
End UniqueIds.

(** ** Claims about validation, reconcile and the round trip *)

Lemma field_reports {pydantic : Pydantic} {A : Type} (validate : pyval -> option A)
    default key entries e :
  e ∈ errors_of (field validate default key entries) -> reports entries e.
Proof.
  unfold field.
  destruct (dict_get key entries) as [v|] eqn:Hget.
  - destruct (validate v); cbn; intros He.
    + apply elem_of_nil in He. contradiction.
    + apply list_elem_of_singleton in He. subst e. exact Hget.
  - destruct default; cbn; intros He.
    + apply elem_of_nil in He. contradiction.
    + apply list_elem_of_singleton in He. subst e. exact Hget.
Qed.

(** C3, as stated, fails: a preset with speedScale 10.0, pitchScale 3.0 and
    prePhonemeLength -1.0 is constructed without error. *)
Lemma Preset_init_accepts_out_of_range :
  Preset_init out_of_range_input = inr out_of_range.
Proof. reflexivity. Qed.

(** C3, amended: constructing a [Preset] checks each field against its
    declared type and against nothing else.  Every value of the declared
    types is accepted whatever its magnitude (no range is enforced);
    construction either succeeds or fails with the errors of all offending
    fields, at least one, each naming the field and the value rejected there
    (or the field that is missing). *)
Theorem Preset_init_checks_types_only {pydantic : Pydantic} :
  (forall p : Preset, Preset_validate (model_dump p) = inr p) /\
  (forall entries,
     (exists p, Preset_init entries = inr p /\ Preset_field_errors entries = []) \/
     (Preset_init entries = inl (Preset_field_errors entries) /\
      Preset_field_errors entries <> [])) /\
  (forall entries e, e ∈ Preset_field_errors entries -> reports entries e).
Proof.
  split; [apply Preset_validate_model_dump|]. split.
  - intros entries.
    pose proof (Preset_init_errors entries) as Herr.
    pose proof (Preset_init_sound entries) as Hsound.
    destruct (Preset_init entries) as [errs|p]; cbn in Herr, Hsound.
    + right. subst errs. split; [reflexivity | exact Hsound].
    + left. exists p. split; [reflexivity | symmetry; exact Herr].
  - intros entries e. unfold Preset_field_errors.
    rewrite !elem_of_app.
    intros H; repeat (destruct H as [H|H]; [eapply field_reports, H|]).
    eapply field_reports, H.
Qed.

(** C4, as stated, fails: a file that holds an empty sequence is loaded
    without error, and the cache becomes empty. *)
Lemma refresh_cache_accepts_empty_sequence :
  _refresh_cache (just_opened (PyList [])) =
    (Return tt, reloaded 1700000000.0%float [] (just_opened (PyList []))) /\
  cache (reloaded 1700000000.0%float [] (just_opened (PyList []))) = Some [].
Proof. split; reflexivity. Qed.

(** C4, amended: when the file's modification time differs from the
    watermark, a file that holds the null document makes reconcile raise
    [PresetInternalError] (the file is empty) and leaves the store as it
    was; a file that holds an empty sequence is accepted: reconcile returns,
    the cache is empty and the watermark is the file's modification time. *)
Theorem refresh_cache_null_and_empty {pydantic : Pydantic} {yaml : Yaml} (w : world) (t : float) :
  PrimFloat.eqb t (last_modified_time (self w)) = false ->
  _refresh_cache (with_file (Present t (Document PyNone)) w) =
    (Raise (PresetInternalError msg_file_empty),
     with_file (Present t (Document PyNone)) w) /\
  (exists w',
     _refresh_cache (with_file (Present t (Document (PyList []))) w) = (Return tt, w') /\
     cache w' = Some [] /\
     last_modified_time (self w') = t).
Proof.
  intros Ht. split.
  - eapply refresh_cache_null; [reflexivity | exact Ht].
  - eexists. split; [|split].
    + eapply refresh_cache_reload; [reflexivity | exact Ht | reflexivity | constructor].
    + apply cache_reloaded.
    + reflexivity.
Qed.

Lemma refresh_cache_null_and_empty_witness :
  _refresh_cache (with_file (Present 2.0%float (Document PyNone)) (just_opened PyNone)) =
    (Raise (PresetInternalError msg_file_empty),
     with_file (Present 2.0%float (Document PyNone)) (just_opened PyNone)) /\
  (exists w',
     _refresh_cache (with_file (Present 2.0%float (Document (PyList []))) (just_opened PyNone))
       = (Return tt, w') /\
     cache w' = Some [] /\
     last_modified_time (self w') = 2.0%float).
Proof. apply (refresh_cache_null_and_empty (just_opened PyNone) 2.0%float). reflexivity. Defined.

(** C9, as the specification states it, fails in two ways.  A record whose
    name holds U+0085 is written, and a fresh manager reads it back with a
    space there; and a file whose modification time is 0.0, the watermark of
    a fresh manager, is never read, so the fresh manager shows no record. *)
Lemma persist_then_reopen_differs :
  (exists w1 lst w2,
     _write_on_file (Written 1700000000.0%float)
       (reloaded 1.0%float [sample 3 name_with_next_line] (just_opened PyNone))
       = (Return tt, w1) /\
     (PresetManager_init ;; load_presets) w1 = (Return lst, w2) /\
     records w2 lst = Some [sample 3 "A B"]) /\
  (exists w1 lst w2,
     _write_on_file (Written 0.0%float)
       (reloaded 1.0%float [sample 3 "A"; sample 1 "B"] (just_opened PyNone))
       = (Return tt, w1) /\
     (PresetManager_init ;; load_presets) w1 = (Return lst, w2) /\
     records w2 lst = Some []).
Proof.
  split; eexists _, _, _; (split; [reflexivity|]); (split; [reflexivity|]);
    vm_compute; reflexivity.
Qed.

(** C9, amended: persisting a collection of records with pairwise-distinct
    ids, whose dump the YAML library reads back as the value that was
    dumped, and opening a fresh manager over the same file loads an equal
    collection: the same records, field for field, in the same order.  That
    is so when the file's modification time [t] is not the initial watermark
    0.0; when it is, the fresh manager returns the empty list. *)
Theorem persist_then_reopen {pydantic : Pydantic} {yaml : Yaml} (w : world)
    (ps : list Preset) (t : float) :
  cache w = Some ps ->
  NoDup (map id ps) ->
  load_dumped (PyList (map model_dump ps)) = inr (PyList (map model_dump ps)) ->
  exists w1 lst w2,
    _write_on_file (Written t) w = (Return tt, w1) /\
    file w1 = Present t (Dumped (PyList (map model_dump ps))) /\
    (PresetManager_init ;; load_presets) w1 = (Return lst, w2) /\
    records w2 lst = Some (if PrimFloat.eqb t 0.0%float then [] else ps).
Proof.
  intros Hc Hnd Hyaml.
  destruct (PrimFloat.eqb t 0.0%float) eqn:Ht;
    (eexists _, _, _; split; [apply (write_on_file_written t w ps Hc)|]);
    (split; [reflexivity|]);
    unfold bind at 1; unfold PresetManager_init, bind at 1, new_list, bind at 1;
    unfold get_world, bind at 1, modify, ret at 1, modify;
    unfold load_presets, bind at 1.
  - erewrite refresh_cache_fresh; [ | reflexivity | exact Ht ].
    split; [reflexivity|].
    unfold records. cbn. rewrite lookup_app_r, Nat.sub_diag by lia. reflexivity.
  - erewrite refresh_cache_loaded;
      [ | reflexivity | exact Ht | exact Hyaml
        | apply parse_obj_as_presets_dump | exact Hnd ].
    split; [reflexivity|]. apply cache_reloaded.
Qed.

Lemma persist_then_reopen_witness :
  exists w1 lst w2,
    _write_on_file (Written 1700000000.0%float)
      (reloaded 1.0%float [sample 3 "A"; sample 1 "B"] (just_opened PyNone))
      = (Return tt, w1) /\
    file w1 = Present 1700000000.0%float
                (Dumped (PyList (map model_dump [sample 3 "A"; sample 1 "B"]))) /\
    (PresetManager_init ;; load_presets) w1 = (Return lst, w2) /\
    records w2 lst = Some [sample 3 "A"; sample 1 "B"].
Proof.
  apply (persist_then_reopen
           (reloaded 1.0%float [sample 3 "A"; sample 1 "B"] (just_opened PyNone))
           [sample 3 "A"; sample 1 "B"] 1700000000.0%float).
  - reflexivity.
  - apply (bool_decide_unpack _). vm_compute. exact I.
  - reflexivity.
Defined.

(** ** Claims about the operations of the store *)

(** C6: on a non-empty cache, [add_preset] of a record whose id is negative
    or is the id of a cached record gives it the greatest cached id plus one
    and returns that; a non-negative id that no cached record has is kept
    and returned.  (The write goes through; the cache is the one reconcile
    leaves.) *)
Theorem add_preset_assigns_id {pydantic : Pydantic} {yaml : Yaml} (w w1 : world)
    (ps : list Preset) (preset : nat) (p : Preset) (t : float) :
  _refresh_cache w = (Return tt, w1) ->
  cache w1 = Some ps ->
  ps <> [] ->
  objects w1 !! preset = Some p ->
  exists n w',
    add_preset (Written t) preset w = (Return n, w') /\
    objects w' !! preset = Some (set_id p n) /\
    (id p < 0 \/ id p ∈ map id ps ->
     exists m, m ∈ map id ps /\ (forall x, x ∈ map id ps -> x <= m) /\ n = m + 1) /\
    (0 <= id p -> id p ∉ map id ps -> n = id p).
Proof.
  intros Hrefresh Hc Hne Hp.
  destruct (cache_inv _ _ Hc) as (l & Hl & Hd).
  destruct (issue_id (id p) (map id ps)) as [n|] eqn:Hissue.
  2:{ unfold issue_id in Hissue. destruct ps; [congruence|].
      destruct (_ || _); discriminate Hissue. }
  exists n. eexists. split; [|split; [|split]].
  - apply (add_preset_written w w1 l ps preset p Hrefresh Hl Hd Hp t n Hissue).
  - cbn. apply list_lookup_insert_eq, (lookup_lt_Some _ _ _ Hp).
  - intros Hcond. unfold issue_id in Hissue.
    replace ((id p <? 0) || bool_decide (id p ∈ map id ps)) with true in Hissue.
    2:{ symmetry. apply orb_true_iff. destruct Hcond as [Hneg|Hin].
        - left. apply Z.ltb_lt, Hneg.
        - right. apply bool_decide_eq_true, Hin. }
    destruct (map id ps) as [|y rest] eqn:Hids; [discriminate|].
    injection Hissue as <-. exists (foldl Z.max y rest).
    destruct (foldl_max_spec y rest) as [Hin Hmax]. auto.
  - intros Hpos Hnin. unfold issue_id in Hissue.
    replace ((id p <? 0) || bool_decide (id p ∈ map id ps)) with false in Hissue.
    2:{ symmetry. apply orb_false_iff. split.
        - apply Z.ltb_ge, Hpos.
        - apply bool_decide_eq_false, Hnin. }
    congruence.
Qed.

Lemma add_preset_assigns_id_witness :
  exists n w',
    add_preset (Written 1700000001.0%float) 2%nat two_presets = (Return n, w') /\
    objects w' !! 2%nat = Some (set_id (sample (-1) "C") n) /\
    (id (sample (-1) "C") < 0 \/
     id (sample (-1) "C") ∈ map id [sample 0 "A"; sample 1 "B"] ->
     exists m, m ∈ map id [sample 0 "A"; sample 1 "B"] /\
               (forall x, x ∈ map id [sample 0 "A"; sample 1 "B"] -> x <= m) /\
               n = m + 1) /\
    (0 <= id (sample (-1) "C") ->
     id (sample (-1) "C") ∉ map id [sample 0 "A"; sample 1 "B"] ->
     n = id (sample (-1) "C")).
Proof.
  apply (add_preset_assigns_id two_presets two_presets
           [sample 0 "A"; sample 1 "B"] 2%nat (sample (-1) "C")
           1700000001.0%float).
  - reflexivity.
  - reflexivity.
  - discriminate.
  - reflexivity.
Defined.

(** C7 fails on the code: on an empty cache, [add_preset] of a record with
    a negative id raises [ValueError] ([max] of an empty list) before
    anything is appended or written; the store is left as reconcile left
    it. *)
Theorem add_preset_on_empty_cache {pydantic : Pydantic} {yaml : Yaml} (w w1 : world)
    (io : write_outcome) (preset : nat) (p : Preset) :
  _refresh_cache w = (Return tt, w1) ->
  cache w1 = Some [] ->
  objects w1 !! preset = Some p ->
  id p < 0 ->
  add_preset io preset w = (Raise ValueError, w1).
Proof.
  intros Hrefresh Hc Hp Hneg.
  destruct (cache_inv _ _ Hc) as (l & Hl & Hd).
  apply (add_preset_no_id w w1 l [] preset p Hrefresh Hl Hd Hp).
  unfold issue_id. rewrite (proj2 (Z.ltb_lt _ _) Hneg). reflexivity.
Qed.

Lemma add_preset_on_empty_cache_witness :
  add_preset (Written 1700000001.0%float) 0%nat empty_store =
  (Raise ValueError, empty_store).
Proof.
  apply (add_preset_on_empty_cache empty_store empty_store
           (Written 1700000001.0%float) 0%nat (sample (-1) "A")).
  - reflexivity.
  - reflexivity.
  - reflexivity.
  - reflexivity.
Defined.

(** C8: [update_preset] with a record whose id no cached record has, and
    [delete_preset] with such an id, raise [PresetInputError] and leave the
    store exactly as reconcile left it. *)
Theorem unknown_id_is_rejected {pydantic : Pydantic} {yaml : Yaml} (w w1 : world)
    (ps : list Preset) (io : write_outcome) :
  _refresh_cache w = (Return tt, w1) ->
  cache w1 = Some ps ->
  (forall preset p,
     objects w1 !! preset = Some p -> id p ∉ map id ps ->
     update_preset io preset w =
     (Raise (PresetInputError msg_no_update_target), w1)) /\
  (forall target,
     target ∉ map id ps ->
     delete_preset io target w =
     (Raise (PresetInputError msg_no_delete_target), w1)).
Proof.
  intros Hrefresh Hc. destruct (cache_inv _ _ Hc) as (l & Hl & Hd). split.
  - intros preset p Hp Hnot.
    apply (update_preset_unknown w w1 l ps Hrefresh Hl Hd io preset p Hp Hnot).
  - intros target Hnot.
    apply (delete_preset_unknown w w1 l ps Hrefresh Hl Hd io target Hnot).
Qed.

Lemma unknown_id_is_rejected_witness :
  update_preset (Written 1700000001.0%float) 4%nat two_presets =
    (Raise (PresetInputError msg_no_update_target), two_presets) /\
  delete_preset (Written 1700000001.0%float) 9 two_presets =
    (Raise (PresetInputError msg_no_delete_target), two_presets).
Proof.
  destruct (unknown_id_is_rejected two_presets two_presets
              [sample 0 "A"; sample 1 "B"] (Written 1700000001.0%float)
              eq_refl eq_refl) as [Hupdate Hdelete].
  split.
  - apply (Hupdate 4%nat (sample 7 "E") eq_refl).
    apply (bool_decide_unpack _). vm_compute. exact I.
  - apply (Hdelete 9).
    apply (bool_decide_unpack _). vm_compute. exact I.
Defined.

(** A cache whose records the manager has written to the file, with
    distinct ids and a dump that is read back as it is: whether or not
    reconcile reloads, [load_presets] returns those records. *)
Lemma load_presets_in_step {pydantic : Pydantic} {yaml : Yaml} w ps t :
  cache w = Some ps ->
  NoDup (map id ps) ->
  file w = Present t (Dumped (PyList (map model_dump ps))) ->
  load_dumped (PyList (map model_dump ps)) = inr (PyList (map model_dump ps)) ->
  exists lst w', load_presets w = (Return lst, w') /\ records w' lst = Some ps.
Proof.
  intros Hc Hnd Hf Hyaml. unfold load_presets.
  destruct (PrimFloat.eqb t (last_modified_time (self w))) eqn:Ht.
  - eexists _, _. split.
    + advance (refresh_cache_fresh _ _ _ Hf Ht). reflexivity.
    + exact Hc.
  - eexists _, _. split.
    + advance (refresh_cache_loaded _ _ _ _ _ Hf Ht Hyaml
                 (parse_obj_as_presets_dump ps) Hnd).
      reflexivity.
    + apply cache_reloaded.
Qed.

(** C10, as the specification states it, fails in what the next
    [load_presets] shows.  When the record given to [add_preset] is an
    object of the cache itself, the file is written with its new id twice
    over and the next [load_presets] raises.  And the next [load_presets]
    builds its records from the file, so a name that holds U+0085 is shown
    with a space there, not with the caller's value. *)
Lemma add_preset_then_load_presets_differs :
  (fst (add_preset (Written 1700000001.0%float) 0%nat two_presets) = Return 2 /\
   fst (load_presets (snd (add_preset (Written 1700000001.0%float) 0%nat two_presets)))
     = Raise (PresetInternalError msg_id_duplicated)) /\
  (fst (add_preset (Written 1700000001.0%float) 5%nat next_line_store) = Return 2 /\
   exists lst w'',
     load_presets (snd (add_preset (Written 1700000001.0%float) 5%nat next_line_store))
       = (Return lst, w'') /\
     records w'' lst = Some [sample 0 "A"; sample 1 "B"; sample 2 "A B"]).
Proof.
  split; (split; [reflexivity|]); [reflexivity|].
  eexists _, _. split; [reflexivity|]. vm_compute. reflexivity.
Qed.

(** C10, amended: whatever the outcome, [add_preset] changes nothing of the
    record it is given but its id, and changes no other object; when it
    returns, the id returned is the id of the caller's object, that very
    object is the last element of the cache, and the file holds the dump of
    the cache.  The next [load_presets] then returns the earlier records
    followed by the caller's record with the id assigned, when the ids of
    the cache were pairwise distinct, the object given was not in the cache
    already, and the YAML library reads the dump back as the value that was
    dumped. *)
Theorem add_preset_changes_id_only {pydantic : Pydantic} {yaml : Yaml} (w w1 : world)
    (l : list nat) (ps : list Preset) (preset : nat) (p : Preset)
    (io : write_outcome) (r : result Z) (w' : world) :
  _refresh_cache w = (Return tt, w1) ->
  cache_refs w1 = Some l ->
  deref w1 l = Some ps ->
  objects w1 !! preset = Some p ->
  add_preset io preset w = (r, w') ->
  exists n,
    objects w' = <[preset := set_id p n]> (objects w1) /\
    objects w' !! preset = Some (set_id p n) /\
    (forall k, r = Return k ->
       k = n /\
       cache_refs w' = Some (l ++ [preset]) /\
       cache w' = Some (overwritten preset (set_id p n) l ps ++ [set_id p n]) /\
       (exists t,
          io = Written t /\
          file w' = Present t (Dumped (PyList (map model_dump
                      (overwritten preset (set_id p n) l ps ++ [set_id p n]))))) /\
       (NoDup (map id ps) ->
        preset ∉ l ->
        load_dumped (PyList (map model_dump (ps ++ [set_id p n]))) =
          inr (PyList (map model_dump (ps ++ [set_id p n]))) ->
        exists lst w'',
          load_presets w' = (Return lst, w'') /\
          records w'' lst = Some (ps ++ [set_id p n]))).
Proof.
  intros Hrefresh Hl Hd Hp Hrun.
  pose proof (lookup_lt_Some _ _ _ Hp) as Hlt.
  pose proof (lookup_lt_Some _ _ _ Hl) as Hs.
  destruct (issue_id (id p) (map id ps)) as [n|] eqn:Hissue.
  - exists n. destruct io as [t|e residue].
    + rewrite (add_preset_written w w1 l ps preset p Hrefresh Hl Hd Hp t n Hissue)
        in Hrun.
      injection Hrun as <- <-. cbn [objects]. split; [reflexivity|].
      split; [apply list_lookup_insert_eq, Hlt|].
      intros k [= <-]. split; [reflexivity|].
      assert (Hc : cache
                {| objects := <[preset := set_id p n]> (objects w1);
                   lists := <[presets (self w1) := l ++ [preset]]> (lists w1);
                   self := self w1;
                   file := Present t (Dumped (PyList (map model_dump
                             (overwritten preset (set_id p n) l ps ++ [set_id p n])))) |}
                = Some (overwritten preset (set_id p n) l ps ++ [set_id p n])).
      { unfold cache, records. cbn. rewrite list_lookup_insert_eq by exact Hs.
        apply deref_app.
        - apply (deref_insert w1 l ps preset (set_id p n) Hd Hlt).
        - rewrite deref_cons. cbn. rewrite list_lookup_insert_eq by exact Hlt.
          reflexivity. }
      split; [unfold cache_refs; cbn; apply list_lookup_insert_eq, Hs|].
      split; [exact Hc|]. split; [exists t; split; reflexivity|].
      intros Hnd Hnot Hyaml.
      destruct (overwritten_untouched l ps preset (set_id p n) Hnot) as [Hsame|Hlen].
      2:{ destruct Hlen. apply (deref_length _ _ _ Hd). }
      rewrite Hsame in Hc |- *.
      apply (load_presets_in_step _ (ps ++ [set_id p n]) t Hc).
      * rewrite map_app. apply NoDup_app. split; [exact Hnd|]. split.
        -- intros x Hx Hx'. cbn in Hx'. apply list_elem_of_singleton in Hx'.
           subst x. apply (issue_id_fresh _ _ _ Hissue Hx).
        -- apply NoDup_singleton.
      * reflexivity.
      * exact Hyaml.
    + rewrite (add_preset_write_fails w w1 l ps preset p Hrefresh Hl Hd Hp
                 e residue n Hissue) in Hrun.
      injection Hrun as <- <-. cbn [objects]. split; [reflexivity|].
      split; [apply list_lookup_insert_eq, Hlt|].
      intros k Hk. discriminate Hk.
  - exists (id p).
    rewrite (add_preset_no_id w w1 l ps preset p Hrefresh Hl Hd Hp io Hissue) in Hrun.
    injection Hrun as <- <-. rewrite set_id_same.
    split; [symmetry; apply list_insert_id, Hp|].
    split; [exact Hp|]. intros k Hk. discriminate Hk.
Qed.

Lemma add_preset_changes_id_only_witness :
  objects (snd (add_preset (Written 1700000001.0%float) 3%nat two_presets)) =
    <[3%nat := sample 2 "D"]> (objects two_presets) /\
  cache (snd (add_preset (Written 1700000001.0%float) 3%nat two_presets)) =
    Some [sample 0 "A"; sample 1 "B"; sample 2 "D"] /\
  file (snd (add_preset (Written 1700000001.0%float) 3%nat two_presets)) =
    Present 1700000001.0%float
      (Dumped (PyList (map model_dump [sample 0 "A"; sample 1 "B"; sample 2 "D"]))) /\
  exists lst w'',
    load_presets (snd (add_preset (Written 1700000001.0%float) 3%nat two_presets))
      = (Return lst, w'') /\
    records w'' lst = Some [sample 0 "A"; sample 1 "B"; sample 2 "D"].
Proof.
  destruct (add_preset_changes_id_only two_presets two_presets [0%nat; 1%nat]
              [sample 0 "A"; sample 1 "B"] 3%nat (sample 1 "D")
              (Written 1700000001.0%float)
              (fst (add_preset (Written 1700000001.0%float) 3%nat two_presets))
              (snd (add_preset (Written 1700000001.0%float) 3%nat two_presets)))
    as (n & Hobjs & Hobj & Hret).
  - reflexivity.
  - reflexivity.
  - reflexivity.
  - reflexivity.
  - apply surjective_pairing.
  - assert (Hn : n = 2).
    { vm_compute in Hobj. injection Hobj as Hn. symmetry. exact Hn. }
    subst n.
    destruct (Hret 2 eq_refl) as (_ & _ & Hc & (t & Ht & Hf) & Hload).
    injection Ht as <-.
    split; [exact Hobjs|]. split; [exact Hc|]. split; [exact Hf|].
    apply Hload.
    + apply (bool_decide_unpack _). vm_compute. exact I.
    + apply (bool_decide_unpack _). vm_compute. exact I.
    + reflexivity.
Defined.

(** C1 fails on the code for [delete_preset]: when the write raises anything
    but [FileNotFoundError], the exception leaves the method with the entry
    still removed from the cache. *)
Theorem delete_preset_not_rolled_back {pydantic : Pydantic} {yaml : Yaml} (w w1 : world)
    (ps : list Preset) (target : Z) (k : nat) (c : Preset)
    (e : exn) (residue : file_state) :
  _refresh_cache w = (Return tt, w1) ->
  cache w1 = Some ps ->
  list_find (fun q => id q = target) ps = Some (k, c) ->
  is_FileNotFoundError e = false ->
  exists w',
    delete_preset (WriteFails e residue) target w = (Raise e, w') /\
    cache w' = Some (delete k ps) /\
    length (delete k ps) = (length ps - 1)%nat /\
    (0 < length ps)%nat.
Proof.
  intros Hrefresh Hc Hfind He.
  destruct (cache_inv _ _ Hc) as (l & Hl & Hd).
  pose proof (proj1 (list_find_Some _ _ _ _) Hfind) as (Hk & _ & _).
  pose proof (lookup_lt_Some _ _ _ Hk) as Hlt.
  destruct (lookup_lt_is_Some_2 l k) as [cur Hcur].
  { rewrite <- (deref_length _ _ _ Hd). exact Hlt. }
  eexists. split; [|split; [|split]].
  - apply (delete_preset_other_error w w1 l ps Hrefresh Hl Hd target k cur c
             Hcur Hfind e residue He).
  - unfold cache, records. cbn.
    rewrite list_lookup_insert_eq by apply (lookup_lt_Some _ _ _ Hl).
    apply (deref_delete w1), Hd.
  - rewrite length_delete by eauto. reflexivity.
  - lia.
Qed.

Lemma delete_preset_not_rolled_back_witness :
  exists w',
    delete_preset (WriteFails OSError (file two_presets)) 0 two_presets =
      (Raise OSError, w') /\
    cache w' = Some (delete 0%nat [sample 0 "A"; sample 1 "B"]) /\
    length (delete 0%nat [sample 0 "A"; sample 1 "B"]) =
      (length [sample 0 "A"; sample 1 "B"] - 1)%nat /\
    (0 < length [sample 0 "A"; sample 1 "B"])%nat.
Proof.
  apply (delete_preset_not_rolled_back two_presets two_presets
           [sample 0 "A"; sample 1 "B"] 0 0%nat (sample 0 "A")
           OSError (file two_presets)).
  - reflexivity.
  - reflexivity.
  - reflexivity.
  - reflexivity.
Defined.

(** What the sibling methods do when the write fails, and what
    [delete_preset] does for [FileNotFoundError] alone: the cache, as a list
    of references, is the one reconcile left.  ([add_preset] leaves the id it
    issued on the caller's object.) *)
Lemma persist_failure_rolled_back {pydantic : Pydantic} {yaml : Yaml} (w w1 : world)
    (l : list nat) (ps : list Preset) (e : exn) (residue : file_state) :
  _refresh_cache w = (Return tt, w1) ->
  cache_refs w1 = Some l ->
  deref w1 l = Some ps ->
  (forall preset p n,
     objects w1 !! preset = Some p ->
     issue_id (id p) (map id ps) = Some n ->
     exists w',
       add_preset (WriteFails e residue) preset w = (Raise (translated e), w') /\
       lists w' = lists w1 /\ self w' = self w1) /\
  (forall preset p,
     objects w1 !! preset = Some p ->
     id p ∈ map id ps ->
     exists w',
       update_preset (WriteFails e residue) preset w = (Raise (translated e), w') /\
       lists w' = lists w1 /\ self w' = self w1 /\ objects w' = objects w1) /\
  (forall target,
     target ∈ map id ps ->
     exists w',
       delete_preset (WriteFails FileNotFoundError residue) target w =
         (Raise (PresetInternalError msg_file_not_found), w') /\
       lists w' = lists w1 /\ self w' = self w1 /\ objects w' = objects w1).
Proof.
  intros Hrefresh Hl Hd.
  assert (Hfound : forall x, x ∈ map id ps ->
            exists k c cur, list_find (fun q => id q = x) ps = Some (k, c) /\
                            l !! k = Some cur).
  { intros x Hx. apply list_elem_of_fmap in Hx as (q & -> & Hq).
    destruct (list_find_elem_of (fun q' => id q' = id q) ps q Hq eq_refl)
      as [[k c] Hfind].
    pose proof (proj1 (list_find_Some _ _ _ _) Hfind) as (Hk & _ & _).
    destruct (lookup_lt_is_Some_2 l k) as [cur Hcur].
    { rewrite <- (deref_length _ _ _ Hd). apply (lookup_lt_Some _ _ _ Hk). }
    eauto. }
  split; [|split].
  - intros preset p n Hp Hissue. eexists. split.
    + apply (add_preset_write_fails w w1 l ps preset p Hrefresh Hl Hd Hp
               e residue n Hissue).
    + split; reflexivity.
  - intros preset p Hp Hin.
    destruct (Hfound _ Hin) as (k & c & cur & Hfind & Hcur).
    eexists. split.
    + apply (update_preset_write_fails w w1 l ps Hrefresh Hl Hd preset p k cur c
               Hp Hcur Hfind e residue).
    + repeat split.
  - intros target Hin.
    destruct (Hfound _ Hin) as (k & c & cur & Hfind & Hcur).
    eexists. split.
    + apply (delete_preset_file_not_found w w1 l ps Hrefresh Hl Hd target k cur c
               Hcur Hfind residue).
    + repeat split.
Qed.

(** C5, as stated, fails: [load_presets] hands out the cache itself.  On a
    store in step with its file it returns list object 0, which is
    [self.presets]; when the caller appends to the list it was given, the
    cache has one more element; when the store adds a preset, the list the
    caller was given has one more element. *)
Lemma load_presets_is_not_a_snapshot :
  load_presets two_presets = (Return 0%nat, two_presets) /\
  presets (self two_presets) = 0%nat /\
  cache_refs two_presets = Some [0%nat; 1%nat] /\
  cache_refs (snd (list_append 0%nat 4%nat two_presets)) = Some [0%nat; 1%nat; 4%nat] /\
  lists (snd (add_preset (Written 1700000000.0%float) 2%nat two_presets)) !! 0%nat =
    Some [0%nat; 1%nat; 2%nat].
Proof. repeat split; reflexivity. Qed.

(** C5, amended: [load_presets] reconciles and returns the list object that
    is the cache, not a copy of it.  What it returns holds the records of the
    cache, element for element; it raises exactly what reconcile raises; an
    element appended to the returned list is appended to the cache; and a
    preset the store adds while the file is unchanged is appended to the
    returned list. *)
Theorem load_presets_returns_the_cache {pydantic : Pydantic} {yaml : Yaml} (w : world) :
  (forall lst w1,
     load_presets w = (Return lst, w1) <->
     _refresh_cache w = (Return tt, w1) /\ lst = presets (self w1)) /\
  (forall e w1,
     load_presets w = (Raise e, w1) <-> _refresh_cache w = (Raise e, w1)) /\
  (forall lst w1 l x,
     load_presets w = (Return lst, w1) ->
     cache_refs w1 = Some l ->
     records w1 lst = cache w1 /\
     cache_refs (snd (list_append lst x w1)) = Some (l ++ [x])) /\
  (forall lst w1 l ps preset p t n,
     load_presets w = (Return lst, w1) ->
     cache_refs w1 = Some l ->
     deref w1 l = Some ps ->
     objects w1 !! preset = Some p ->
     _refresh_cache w1 = (Return tt, w1) ->
     issue_id (id p) (map id ps) = Some n ->
     lists (snd (add_preset (Written t) preset w1)) !! lst = Some (l ++ [preset])).
Proof.
  assert (Hret : forall lst w1,
            load_presets w = (Return lst, w1) <->
            _refresh_cache w = (Return tt, w1) /\ lst = presets (self w1)).
  { intros lst w1. unfold load_presets, bind at 1.
    destruct (_refresh_cache w) as [[[]|e|] w0]; unfold bind, get_self, ret; split.
    - intros [= <- <-]. split; reflexivity.
    - intros [[= <-] ->]. reflexivity.
    - discriminate.
    - intros [H _]. discriminate H.
    - discriminate.
    - intros [H _]. discriminate H. }
  split; [exact Hret|]. split; [|split].
  - intros e w1. unfold load_presets, bind at 1.
    destruct (_refresh_cache w) as [[[]|e'|] w0]; unfold bind, get_self, ret; split;
      try discriminate; intros [= <- <-]; reflexivity.
  - intros lst w1 l x Hload Hl. apply Hret in Hload as [_ ->].
    split; [reflexivity|].
    rewrite (list_append_run _ _ _ x Hl). unfold cache_refs. cbn.
    apply list_lookup_insert_eq, (lookup_lt_Some _ _ _ Hl).
  - intros lst w1 l ps preset p t n Hload Hl Hd Hp Hstep Hissue.
    apply Hret in Hload as [_ ->].
    rewrite (add_preset_written w1 w1 l ps preset p Hstep Hl Hd Hp t n Hissue).
    cbn. apply list_lookup_insert_eq, (lookup_lt_Some _ _ _ Hl).
Qed.

(** C2 fails on the code: [add_preset] of an object the cache already holds.
    The store holds presets 0 and 1 and is in step with its file; the caller
    passes to [add_preset] the first element of what [load_presets]
    returned.  Its id, 0, is taken, so the object is given id 2, and the
    same object is appended: the cache now holds it twice.  When the write
    leaves the modification time as it was, [load_presets] returns records
    with ids 2, 1, 2; when it does not, [load_presets] reloads the file the
    store itself wrote and rejects it for its repeated id. *)
Theorem add_preset_of_cached_object_repeats_id :
  cache two_presets = Some [sample 0 "A"; sample 1 "B"] /\
  (exists w1 lst w2,
     add_preset (Written 1700000000.0%float) 0%nat two_presets = (Return 2, w1) /\
     cache_refs w1 = Some [0%nat; 1%nat; 0%nat] /\
     load_presets w1 = (Return lst, w2) /\
     option_map (map id) (records w2 lst) = Some [2; 1; 2]) /\
  (exists w1 w2,
     add_preset (Written 1700000001.0%float) 0%nat two_presets = (Return 2, w1) /\
     load_presets w1 = (Raise (PresetInternalError msg_id_duplicated), w2)).
Proof.
  split; [reflexivity|]. split.
  - eexists _, _, _. repeat split; reflexivity.
  - eexists _, _. split; reflexivity.
Qed.

(** * Further properties of the store *)


(** The entry [update_preset] and [delete_preset] act on: the first one
    with the id looked for. *)
Lemma find_by_id w l ps x :
  deref w l = Some ps -> x ∈ map id ps ->
  exists k c cur, list_find (fun q => id q = x) ps = Some (k, c) /\ l !! k = Some cur.
Proof.
  intros Hd Hx. apply list_elem_of_fmap in Hx as (q & -> & Hq).
  destruct (list_find_elem_of (fun q' => id q' = id q) ps q Hq eq_refl)
    as [[k c] Hfind].
  pose proof (proj1 (list_find_Some _ _ _ _) Hfind) as (Hk & _ & _).
  destruct (lookup_lt_is_Some_2 l k) as [cur Hcur].
  { rewrite <- (deref_length _ _ _ Hd). apply (lookup_lt_Some _ _ _ Hk). }
  eauto.
Qed.

Lemma found_entry w l ps x k c :
  deref w l = Some ps -> list_find (fun q => id q = x) ps = Some (k, c) ->
  exists cur, l !! k = Some cur.
Proof.
  intros Hd Hfind.
  pose proof (proj1 (list_find_Some _ _ _ _) Hfind) as (Hk & _ & _).
  apply lookup_lt_is_Some_2.
  rewrite <- (deref_length _ _ _ Hd). apply (lookup_lt_Some _ _ _ Hk).
Qed.



(** X2: when the write fails in [update_preset], whatever it raises, the
    previous entry is put back at its position: apart from the file, the
    store is exactly as reconcile left it. *)
Theorem update_preset_rolls_back {pydantic : Pydantic} {yaml : Yaml} (w w1 : world)
    (ps : list Preset) (preset : nat) (p : Preset)
    (e : exn) (residue : file_state) :
  _refresh_cache w = (Return tt, w1) ->
  cache w1 = Some ps ->
  objects w1 !! preset = Some p ->
  id p ∈ map id ps ->
  update_preset (WriteFails e residue) preset w =
    (Raise (if is_FileNotFoundError e
            then PresetInternalError msg_file_not_found else e),
     with_file residue w1).
Proof.
  intros Hrefresh Hc Hp Hin.
  destruct (cache_inv _ _ Hc) as (l & Hl & Hd).
  destruct (find_by_id _ _ _ _ Hd Hin) as (k & c & cur & Hfind & Hcur).
  apply (update_preset_write_fails w w1 l ps Hrefresh Hl Hd preset p k cur c
           Hp Hcur Hfind e residue).
Qed.

Lemma update_preset_rolls_back_witness :
  update_preset (WriteFails OSError Absent) 3%nat two_presets =
    (Raise (if is_FileNotFoundError OSError
            then PresetInternalError msg_file_not_found else OSError),
     with_file Absent two_presets).
Proof.
  apply (update_preset_rolls_back two_presets two_presets
           [sample 0 "A"; sample 1 "B"] 3%nat (sample 1 "D") OSError Absent).
  - reflexivity.
  - reflexivity.
  - reflexivity.
  - apply (bool_decide_unpack _). vm_compute. exact I.
Defined.

(** X3: when the write in [delete_preset] raises [FileNotFoundError], the
    removed entry is inserted again at its position and
    [PresetInternalError] is raised: apart from the file, the store is
    exactly as reconcile left it. *)
Theorem delete_preset_rolls_back_file_not_found {pydantic : Pydantic} {yaml : Yaml}
    (w w1 : world) (ps : list Preset) (target : Z) (residue : file_state) :
  _refresh_cache w = (Return tt, w1) ->
  cache w1 = Some ps ->
  target ∈ map id ps ->
  delete_preset (WriteFails FileNotFoundError residue) target w =
    (Raise (PresetInternalError msg_file_not_found), with_file residue w1).
Proof.
  intros Hrefresh Hc Hin.
  destruct (cache_inv _ _ Hc) as (l & Hl & Hd).
  destruct (find_by_id _ _ _ _ Hd Hin) as (k & c & cur & Hfind & Hcur).
  apply (delete_preset_file_not_found w w1 l ps Hrefresh Hl Hd target k cur c
           Hcur Hfind residue).
Qed.

Lemma delete_preset_rolls_back_file_not_found_witness :
  delete_preset (WriteFails FileNotFoundError Absent) 1 two_presets =
    (Raise (PresetInternalError msg_file_not_found), with_file Absent two_presets).
Proof.
  apply (delete_preset_rolls_back_file_not_found two_presets two_presets
           [sample 0 "A"; sample 1 "B"] 1 Absent).
  - reflexivity.
  - reflexivity.
  - apply (bool_decide_unpack _). vm_compute. exact I.
Defined.

(** X4: a successful [delete_preset] removes the first entry with the id
    it is given and no other, keeps the order of the rest, writes the
    remaining records to the file and returns the id; the objects and the
    watermark are untouched. *)
Theorem delete_preset_removes_first_match {pydantic : Pydantic} {yaml : Yaml} (w w1 : world)
    (ps : list Preset) (target : Z) (k : nat) (c : Preset) (t : float) :
  _refresh_cache w = (Return tt, w1) ->
  cache w1 = Some ps ->
  list_find (fun q => id q = target) ps = Some (k, c) ->
  exists w',
    delete_preset (Written t) target w = (Return target, w') /\
    cache w' = Some (take k ps ++ drop (S k) ps) /\
    file w' = Present t (Dumped (PyList (map model_dump (take k ps ++ drop (S k) ps)))) /\
    objects w' = objects w1 /\
    last_modified_time (self w') = last_modified_time (self w1).
Proof.
  intros Hrefresh Hc Hfind.
  destruct (cache_inv _ _ Hc) as (l & Hl & Hd).
  destruct (found_entry _ _ _ _ _ _ Hd Hfind) as [cur Hcur].
  rewrite <- delete_take_drop.
  eexists. split.
  - apply (delete_preset_written w w1 l ps Hrefresh Hl Hd target k cur c
             Hcur Hfind t).
  - repeat split. unfold cache, records. cbn.
    rewrite list_lookup_insert_eq by apply (lookup_lt_Some _ _ _ Hl).
    apply (deref_delete w1), Hd.
Qed.

Lemma delete_preset_removes_first_match_witness :
  exists w',
    delete_preset (Written 1700000001.0%float) 0 two_presets = (Return 0, w') /\
    cache w' = Some (take 0 [sample 0 "A"; sample 1 "B"] ++
                     drop 1 [sample 0 "A"; sample 1 "B"]) /\
    file w' = Present 1700000001.0%float
                (Dumped (PyList (map model_dump
                   (take 0 [sample 0 "A"; sample 1 "B"] ++
                    drop 1 [sample 0 "A"; sample 1 "B"])))) /\
    objects w' = objects two_presets /\
    last_modified_time (self w') = last_modified_time (self two_presets).
Proof.
  apply (delete_preset_removes_first_match two_presets two_presets
           [sample 0 "A"; sample 1 "B"] 0 0%nat (sample 0 "A")
           1700000001.0%float).
  - reflexivity.
  - reflexivity.
  - reflexivity.
Defined.

(** X5: a successful [update_preset] replaces the first entry that has the
    id of the record it is given, at the same position, by the caller's
    object itself; the other entries, the length of the cache and the
    objects are untouched, the file holds the new records and the record's
    id is returned. *)
Theorem update_preset_replaces_in_place {pydantic : Pydantic} {yaml : Yaml} (w w1 : world)
    (l : list nat) (ps : list Preset) (preset : nat) (p : Preset)
    (k : nat) (c : Preset) (t : float) :
  _refresh_cache w = (Return tt, w1) ->
  cache_refs w1 = Some l ->
  deref w1 l = Some ps ->
  objects w1 !! preset = Some p ->
  list_find (fun q => id q = id p) ps = Some (k, c) ->
  exists w',
    update_preset (Written t) preset w = (Return (id p), w') /\
    cache_refs w' = Some (<[k := preset]> l) /\
    cache w' = Some (<[k := p]> ps) /\
    length (<[k := p]> ps) = length ps /\
    file w' = Present t (Dumped (PyList (map model_dump (<[k := p]> ps)))) /\
    objects w' = objects w1.
Proof.
  intros Hrefresh Hl Hd Hp Hfind.
  destruct (found_entry _ _ _ _ _ _ Hd Hfind) as [cur Hcur].
  pose proof (lookup_lt_Some _ _ _ Hl) as Hs.
  eexists. split.
  - apply (update_preset_written w w1 l ps Hrefresh Hl Hd preset p k cur c
             Hp Hcur Hfind t).
  - split; [|split; [|split; [|split]]].
    + unfold cache_refs. cbn. apply list_lookup_insert_eq, Hs.
    + unfold cache, records. cbn. rewrite list_lookup_insert_eq by exact Hs.
      apply (deref_list_insert w1); [exact Hd | exact Hp].
    + apply length_insert.
    + reflexivity.
    + reflexivity.
Qed.

Lemma update_preset_replaces_in_place_witness :
  exists w',
    update_preset (Written 1700000001.0%float) 3%nat two_presets =
      (Return (id (sample 1 "D")), w') /\
    cache_refs w' = Some (<[1%nat := 3%nat]> [0%nat; 1%nat]) /\
    cache w' = Some (<[1%nat := sample 1 "D"]> [sample 0 "A"; sample 1 "B"]) /\
    length (<[1%nat := sample 1 "D"]> [sample 0 "A"; sample 1 "B"]) =
      length [sample 0 "A"; sample 1 "B"] /\
    file w' = Present 1700000001.0%float
                (Dumped (PyList (map model_dump
                   (<[1%nat := sample 1 "D"]> [sample 0 "A"; sample 1 "B"])))) /\
    objects w' = objects two_presets.
Proof.
  apply (update_preset_replaces_in_place two_presets two_presets [0%nat; 1%nat]
           [sample 0 "A"; sample 1 "B"] 3%nat (sample 1 "D") 1%nat (sample 1 "B")
           1700000001.0%float).
  - reflexivity.
  - reflexivity.
  - reflexivity.
  - reflexivity.
  - reflexivity.
Defined.

(** X6: on an empty cache, [add_preset] of a record whose id is not
    negative succeeds: the id is kept and returned, the cache holds that one
    record and the file holds its dump. *)
Theorem add_preset_first_record {pydantic : Pydantic} {yaml : Yaml} (w w1 : world)
    (preset : nat) (p : Preset) (t : float) :
  _refresh_cache w = (Return tt, w1) ->
  cache w1 = Some [] ->
  objects w1 !! preset = Some p ->
  0 <= id p ->
  exists w',
    add_preset (Written t) preset w = (Return (id p), w') /\
    cache w' = Some [p] /\
    file w' = Present t (Dumped (PyList [model_dump p])) /\
    objects w' = objects w1.
Proof.
  intros Hrefresh Hc Hp Hpos.
  destruct (cache_inv _ _ Hc) as (l & Hl & Hd).
  assert (l = []) as ->.
  { apply length_zero_iff_nil. rewrite <- (deref_length _ _ _ Hd). reflexivity. }
  assert (Hissue : issue_id (id p) (map id []) = Some (id p)).
  { unfold issue_id. rewrite (proj2 (Z.ltb_ge _ _) Hpos). reflexivity. }
  pose proof (add_preset_written w w1 [] [] preset p Hrefresh Hl Hd Hp t (id p) Hissue)
    as Hrun.
  rewrite set_id_same, (list_insert_id _ _ _ Hp) in Hrun.
  eexists. split; [exact Hrun|].
  split; [|split; reflexivity].
  unfold cache, records. cbn.
  rewrite list_lookup_insert_eq by apply (lookup_lt_Some _ _ _ Hl).
  rewrite deref_cons. cbn. rewrite Hp. reflexivity.
Qed.

Lemma add_preset_first_record_witness :
  exists w',
    add_preset (Written 1700000001.0%float) 0%nat
      (with_objects [sample 5 "A"] empty_store) = (Return (id (sample 5 "A")), w') /\
    cache w' = Some [sample 5 "A"] /\
    file w' = Present 1700000001.0%float (Dumped (PyList [model_dump (sample 5 "A")])) /\
    objects w' = objects (with_objects [sample 5 "A"] empty_store).
Proof.
  apply (add_preset_first_record (with_objects [sample 5 "A"] empty_store)
           (with_objects [sample 5 "A"] empty_store) 0%nat (sample 5 "A")
           1700000001.0%float).
  - reflexivity.
  - reflexivity.
  - reflexivity.
  - vm_compute. discriminate.
Defined.

(** X7: whenever [add_preset] returns, the id it returns is not an id the
    cache held before the call; when the record's id was negative or taken,
    the id returned is greater than every id the cache held. *)
Theorem add_preset_returns_unused_id {pydantic : Pydantic} {yaml : Yaml} (w w1 : world)
    (ps : list Preset) (preset : nat) (p : Preset) (io : write_outcome)
    (n : Z) (w' : world) :
  _refresh_cache w = (Return tt, w1) ->
  cache w1 = Some ps ->
  objects w1 !! preset = Some p ->
  add_preset io preset w = (Return n, w') ->
  (n ∉ map id ps) /\
  (id p < 0 \/ id p ∈ map id ps -> forall x, x ∈ map id ps -> x < n).
Proof.
  intros Hrefresh Hc Hp Hrun.
  destruct (cache_inv _ _ Hc) as (l & Hl & Hd).
  destruct (issue_id (id p) (map id ps)) as [m|] eqn:Hissue.
  2:{ rewrite (add_preset_no_id w w1 l ps preset p Hrefresh Hl Hd Hp io Hissue)
        in Hrun. discriminate Hrun. }
  destruct io as [t|e residue].
  2:{ rewrite (add_preset_write_fails w w1 l ps preset p Hrefresh Hl Hd Hp
                 e residue m Hissue) in Hrun. discriminate Hrun. }
  rewrite (add_preset_written w w1 l ps preset p Hrefresh Hl Hd Hp t m Hissue)
    in Hrun.
  injection Hrun as <- _. split; [apply (issue_id_fresh _ _ _ Hissue)|].
  intros Hcond x Hx. unfold issue_id in Hissue.
  replace ((id p <? 0) || bool_decide (id p ∈ map id ps)) with true in Hissue.
  2:{ symmetry. apply orb_true_iff. destruct Hcond as [Hneg|Hin].
      - left. apply Z.ltb_lt, Hneg.
      - right. apply bool_decide_eq_true, Hin. }
  destruct (map id ps) as [|y rest]; [discriminate|].
  injection Hissue as <-.
  pose proof (proj2 (foldl_max_spec y rest) x Hx). lia.
Qed.

Lemma add_preset_returns_unused_id_witness :
  (2 ∉ map id [sample 0 "A"; sample 1 "B"]) /\
  (id (sample 1 "D") < 0 \/ id (sample 1 "D") ∈ map id [sample 0 "A"; sample 1 "B"] ->
   forall x, x ∈ map id [sample 0 "A"; sample 1 "B"] -> x < 2).
Proof.
  apply (add_preset_returns_unused_id two_presets two_presets
           [sample 0 "A"; sample 1 "B"] 3%nat (sample 1 "D")
           (Written 1700000001.0%float) 2
           (snd (add_preset (Written 1700000001.0%float) 3%nat two_presets))).
  - reflexivity.
  - reflexivity.
  - reflexivity.
  - reflexivity.
Defined.

(** When reconcile raises, the manager's attributes and the file are as
    they were, and the heaps have at most grown. *)
Lemma refresh_cache_raises {pydantic : Pydantic} {yaml : Yaml} w e w1 :
  _refresh_cache w = (Raise e, w1) ->
  self w1 = self w /\ file w1 = file w /\
  (exists more, objects w1 = objects w ++ more) /\
  (exists more, lists w1 = lists w ++ more).
Proof.
  unfold _refresh_cache, bind at 1, get_world.
  assert (Hsame : forall w0, w0 = w ->
            self w0 = self w /\ file w0 = file w /\
            (exists more, objects w0 = objects w ++ more) /\
            (exists more, lists w0 = lists w ++ more)).
  { intros w0 ->. repeat split; exists []; symmetry; apply app_nil_r. }
  destruct (file w) as [|t data] eqn:Hf; [intros [= _ <-]; apply Hsame; reflexivity|].
  destruct (PrimFloat.eqb _ _); [discriminate|].
  destruct (safe_load data) as [e'|obj];
    [intros [= _ <-]; apply Hsame; reflexivity|].
  destruct (parse_obj_as_presets obj) as [parsed|] eqn:Hparse.
  2:{ destruct obj; intros [= _ <-]; apply Hsame; reflexivity. }
  destruct obj; try discriminate Hparse;
    unfold bind at 1; rewrite for_each_new_obj;
    unfold bind, new_list, get_world, modify, ret; cbn;
    (destruct (decide _); [discriminate|]);
    intros [= _ <-]; cbn; repeat split; eauto.
Qed.

(** X9: every public method starts with reconcile, and when reconcile
    raises, the method raises the same exception and does nothing else; the
    cache (the list and the records it denotes), the watermark and the file
    are then as before the call. *)
Theorem reconcile_error_stops_every_call {pydantic : Pydantic} {yaml : Yaml} (w w1 : world) (e : exn) :
  _refresh_cache w = (Raise e, w1) ->
  load_presets w = (Raise e, w1) /\
  (forall io preset, add_preset io preset w = (Raise e, w1)) /\
  (forall io preset, update_preset io preset w = (Raise e, w1)) /\
  (forall io target, delete_preset io target w = (Raise e, w1)) /\
  self w1 = self w /\
  file w1 = file w /\
  (forall l, cache_refs w = Some l -> cache_refs w1 = Some l) /\
  (forall ps, cache w = Some ps -> cache w1 = Some ps).
Proof.
  intros Hrefresh.
  destruct (refresh_cache_raises _ _ _ Hrefresh) as (Hself & Hfile & Hobjs & [more Hlists]).
  assert (Hrefs : forall l, cache_refs w = Some l -> cache_refs w1 = Some l).
  { intros l Hl. unfold cache_refs in *. rewrite Hself, Hlists.
    apply lookup_app_l_Some, Hl. }
  repeat split; try assumption.
  - apply (bind_raise _ _ _ _ _ Hrefresh).
  - intros io preset. apply (bind_raise _ _ _ _ _ Hrefresh).
  - intros io preset. apply (bind_raise _ _ _ _ _ Hrefresh).
  - intros io target. apply (bind_raise _ _ _ _ _ Hrefresh).
  - intros ps Hc. destruct (cache_inv _ _ Hc) as (l & Hl & Hd).
    apply (cache_intro _ l); [apply Hrefs, Hl|].
    apply (deref_grown w); [exact Hobjs | exact Hd].
Qed.

Lemma reconcile_error_stops_every_call_witness :
  load_presets (with_file Absent two_presets) =
    (Raise (PresetInternalError msg_file_not_found), with_file Absent two_presets) /\
  (forall io preset,
     add_preset io preset (with_file Absent two_presets) =
     (Raise (PresetInternalError msg_file_not_found), with_file Absent two_presets)) /\
  (forall io preset,
     update_preset io preset (with_file Absent two_presets) =
     (Raise (PresetInternalError msg_file_not_found), with_file Absent two_presets)) /\
  (forall io target,
     delete_preset io target (with_file Absent two_presets) =
     (Raise (PresetInternalError msg_file_not_found), with_file Absent two_presets)) /\
  self (with_file Absent two_presets) = self (with_file Absent two_presets) /\
  file (with_file Absent two_presets) = file (with_file Absent two_presets) /\
  (forall l, cache_refs (with_file Absent two_presets) = Some l ->
             cache_refs (with_file Absent two_presets) = Some l) /\
  (forall ps, cache (with_file Absent two_presets) = Some ps ->
              cache (with_file Absent two_presets) = Some ps).
Proof.
  apply (reconcile_error_stops_every_call (with_file Absent two_presets)
           (with_file Absent two_presets)
           (PresetInternalError msg_file_not_found)).
  reflexivity.
Defined.

(** X10: a file whose records parse but repeat an id is rejected: reconcile
    raises [PresetInternalError] (duplicated id), and the manager keeps the
    cache and the watermark it had. *)
Theorem refresh_cache_rejects_repeated_id {pydantic : Pydantic} {yaml : Yaml} (w : world)
    (t : float) (obj : pyval) (parsed : list Preset) :
  file w = Present t (Document obj) ->
  PrimFloat.eqb t (last_modified_time (self w)) = false ->
  parse_obj_as_presets obj = Some parsed ->
  ~ NoDup (map id parsed) ->
  exists w1,
    _refresh_cache w = (Raise (PresetInternalError msg_id_duplicated), w1) /\
    self w1 = self w /\
    (forall ps, cache w = Some ps -> cache w1 = Some ps).
Proof.
  intros Hf Ht Hparse Hdup.
  assert (Hrun : exists w1,
            _refresh_cache w = (Raise (PresetInternalError msg_id_duplicated), w1)).
  { unfold _refresh_cache, bind at 1, get_world. rewrite Hf, Ht.
    cbn [safe_load].
    destruct obj; try discriminate Hparse; rewrite Hparse;
      unfold bind at 1; rewrite for_each_new_obj;
      unfold bind, new_list, get_world, modify, ret; cbn;
      (destruct (decide _) as [Hlen|_]; [|eauto]);
      destruct Hdup; apply remove_dups_length_NoDup, Hlen. }
  destruct Hrun as [w1 Hrun]. exists w1. split; [exact Hrun|].
  destruct (refresh_cache_raises _ _ _ Hrun) as (Hself & _ & Hobjs & [more Hlists]).
  split; [exact Hself|].
  intros ps Hc. destruct (cache_inv _ _ Hc) as (l & Hl & Hd).
  apply (cache_intro _ l).
  - unfold cache_refs in *. rewrite Hself, Hlists. apply lookup_app_l_Some, Hl.
  - apply (deref_grown w); [exact Hobjs | exact Hd].
Qed.

Lemma refresh_cache_rejects_repeated_id_witness :
  exists w1,
    _refresh_cache repeated_id_file =
      (Raise (PresetInternalError msg_id_duplicated), w1) /\
    self w1 = self repeated_id_file /\
    (forall ps, cache repeated_id_file = Some ps -> cache w1 = Some ps).
Proof.
  apply (refresh_cache_rejects_repeated_id repeated_id_file 1700000000.0%float
           (PyList (map model_dump [sample 1 "A"; sample 1 "B"]))
           [sample 1 "A"; sample 1 "B"]).
  - reflexivity.
  - reflexivity.
  - reflexivity.
  - intros Hnd. apply (bool_decide_pack _) in Hnd. vm_compute in Hnd. exact Hnd.
Defined.

(** X11: a manager starts with the watermark 0.0 and an empty cache, so over
    a file whose modification time is 0.0 (the start of the epoch) its first
    reconcile takes the cache for fresh: [load_presets] returns the empty
    list without reading the file, whatever it holds. *)
Theorem new_manager_skips_epoch_file {pydantic : Pydantic} {yaml : Yaml} (w : world)
    (t : float) (data : file_data) :
  PrimFloat.eqb t 0.0%float = true ->
  exists lst w',
    (PresetManager_init ;; load_presets) (with_file (Present t data) w) =
      (Return lst, w') /\
    records w' lst = Some [] /\
    file w' = Present t data.
Proof.
  intros Ht. eexists _, _. split; [|split].
  - unfold bind at 1. unfold PresetManager_init, bind at 1, new_list, bind at 1.
    unfold get_world, bind at 1, modify, ret at 1, modify.
    unfold load_presets, bind at 1.
    erewrite refresh_cache_fresh; [reflexivity | reflexivity | exact Ht].
  - unfold records. cbn. rewrite lookup_app_r, Nat.sub_diag by lia. reflexivity.
  - reflexivity.
Qed.

Lemma new_manager_skips_epoch_file_witness :
  exists lst w',
    (PresetManager_init ;; load_presets)
      (with_file (Present 0.0%float
                    (Document (PyList (map model_dump [sample 0 "A"; sample 1 "B"]))))
                 two_presets) = (Return lst, w') /\
    records w' lst = Some [] /\
    file w' = Present 0.0%float
                (Document (PyList (map model_dump [sample 0 "A"; sample 1 "B"]))).
Proof.
  apply (new_manager_skips_epoch_file two_presets 0.0%float
           (Document (PyList (map model_dump [sample 0 "A"; sample 1 "B"])))).
  reflexivity.
Defined.

Lemma refresh_cache_well_formed {pydantic : Pydantic} {yaml : Yaml} w w1 :
  _refresh_cache w = (Return tt, w1) -> is_Some (cache w) -> is_Some (cache w1).
Proof.
  intros Hrefresh Hc.
  destruct (refresh_cache_returns _ _ Hrefresh)
    as [->|(t & data & obj & parsed & _ & _ & _ & _ & ->)]; [exact Hc|].
  exists parsed. apply cache_reloaded.
Qed.

(** A call that returns has written the cache to the file. *)
Lemma call_written {pydantic : Pydantic} {yaml : Yaml} w c io n w' :
  is_Some (cache w) ->
  existing_argument w c ->
  run c io w = (Return n, w') ->
  exists t ps,
    io = Written t /\
    cache w' = Some ps /\
    file w' = Present t (Dumped (PyList (map model_dump ps))).
Proof.
  intros Hwf Hex Hrun.
  assert (Hrefresh : exists w1, _refresh_cache w = (Return tt, w1)).
  { destruct c; cbn in Hrun;
      destruct (bind_returns _ _ _ _ _ Hrun) as ([] & w1 & Hrefresh & _); eauto. }
  destruct Hrefresh as [w1 Hrefresh].
  destruct (refresh_cache_well_formed _ _ Hrefresh Hwf) as [ps Hc].
  destruct (cache_inv _ _ Hc) as (l & Hl & Hd).
  pose proof (lookup_lt_Some _ _ _ Hl) as Hs.
  destruct c as [preset|preset|target]; cbn in Hrun, Hex.
  - destruct (refresh_cache_argument _ _ preset Hrefresh Hex) as [[p Hp] _].
    pose proof (lookup_lt_Some _ _ _ Hp) as Hlt.
    destruct (issue_id (id p) (map id ps)) as [m|] eqn:Hissue.
    2:{ rewrite (add_preset_no_id w w1 l ps preset p Hrefresh Hl Hd Hp io Hissue)
          in Hrun. discriminate Hrun. }
    destruct io as [t|e residue].
    2:{ rewrite (add_preset_write_fails w w1 l ps preset p Hrefresh Hl Hd Hp
                   e residue m Hissue) in Hrun. discriminate Hrun. }
    rewrite (add_preset_written w w1 l ps preset p Hrefresh Hl Hd Hp t m Hissue)
      in Hrun.
    injection Hrun as <- <-.
    exists t, (overwritten preset (set_id p m) l ps ++ [set_id p m]).
    split; [reflexivity|]. split; [|reflexivity].
    unfold cache, records. cbn. rewrite list_lookup_insert_eq by exact Hs.
    apply deref_app.
    + apply (deref_insert w1 l ps preset (set_id p m) Hd Hlt).
    + rewrite deref_cons. cbn. rewrite list_lookup_insert_eq by exact Hlt.
      reflexivity.
  - destruct (refresh_cache_argument _ _ preset Hrefresh Hex) as [[p Hp] _].
    destruct (list_find (fun q => id q = id p) ps) as [[k c]|] eqn:Hfind.
    2:{ rewrite (update_preset_unknown w w1 l ps Hrefresh Hl Hd io preset p Hp)
          in Hrun; [discriminate Hrun|].
        intros Hin. apply list_elem_of_fmap in Hin as (q & Heq & Hq).
        apply list_find_None in Hfind.
        apply (proj1 (Forall_forall _ _) Hfind q Hq). congruence. }
    destruct (found_entry _ _ _ _ _ _ Hd Hfind) as [cur Hcur].
    destruct io as [t|e residue].
    2:{ rewrite (update_preset_write_fails w w1 l ps Hrefresh Hl Hd preset p k cur c
                   Hp Hcur Hfind e residue) in Hrun. discriminate Hrun. }
    rewrite (update_preset_written w w1 l ps Hrefresh Hl Hd preset p k cur c
               Hp Hcur Hfind t) in Hrun.
    injection Hrun as <- <-.
    exists t, (<[k := p]> ps). split; [reflexivity|]. split; [|reflexivity].
    unfold cache, records. cbn. rewrite list_lookup_insert_eq by exact Hs.
    apply (deref_list_insert w1); [exact Hd | exact Hp].
  - destruct (list_find (fun q => id q = target) ps) as [[k c]|] eqn:Hfind.
    2:{ rewrite (delete_preset_unknown w w1 l ps Hrefresh Hl Hd io target)
          in Hrun; [discriminate Hrun|].
        intros Hin. apply list_elem_of_fmap in Hin as (q & Heq & Hq).
        apply list_find_None in Hfind.
        apply (proj1 (Forall_forall _ _) Hfind q Hq). congruence. }
    destruct (found_entry _ _ _ _ _ _ Hd Hfind) as [cur Hcur].
    destruct io as [t|e residue].
    2:{ destruct (is_FileNotFoundError e) eqn:He.
        - destruct e; try discriminate He.
          rewrite (delete_preset_file_not_found w w1 l ps Hrefresh Hl Hd target k
                     cur c Hcur Hfind residue) in Hrun. discriminate Hrun.
        - rewrite (delete_preset_other_error w w1 l ps Hrefresh Hl Hd target k
                     cur c Hcur Hfind e residue He) in Hrun. discriminate Hrun. }
    rewrite (delete_preset_written w w1 l ps Hrefresh Hl Hd target k cur c
               Hcur Hfind t) in Hrun.
    injection Hrun as <- <-.
    exists t, (delete k ps). split; [reflexivity|]. split; [|reflexivity].
    unfold cache, records. cbn. rewrite list_lookup_insert_eq by exact Hs.
    apply (deref_delete w1), Hd.
Qed.

(** X12: a mutating call ([add_preset], [update_preset], [delete_preset])
    returns only when its write went through, and then the file holds the
    dump of every record of the cache, in the order of the cache. *)
Theorem successful_call_is_written {pydantic : Pydantic} {yaml : Yaml} (w : world) (c : call)
    (io : write_outcome) (n : Z) (w' : world) :
  is_Some (cache w) ->
  existing_argument w c ->
  run c io w = (Return n, w') ->
  exists t ps,
    io = Written t /\
    cache w' = Some ps /\
    file w' = Present t (Dumped (PyList (map model_dump ps))).
Proof. apply call_written. Qed.

Lemma successful_call_is_written_witness :
  exists t ps,
    Written 1700000001.0%float = Written t /\
    cache after_add = Some ps /\
    file after_add = Present t (Dumped (PyList (map model_dump ps))).
Proof.
  apply (successful_call_is_written two_presets (Add 2%nat)
           (Written 1700000001.0%float) 2 after_add).
  - eexists. reflexivity.
  - eexists. reflexivity.
  - reflexivity.
Defined.

(** X13: what a successful call leaves in the cache is what the next
    [load_presets] returns, whether or not the write changed the file's
    modification time (that is, whether or not reconcile reloads the file),
    provided the YAML library reads the dump of these records back as the
    value that was dumped: for a store with pairwise-distinct ids and a call
    whose argument the cache does not hold already. *)
Theorem successful_call_is_durable {pydantic : Pydantic} {yaml : Yaml} (w : world)
    (c : call) (io : write_outcome) (n : Z) (w' : world) :
  unique_ids w ->
  existing_argument w c ->
  distinct_argument w c ->
  run c io w = (Return n, w') ->
  exists ps,
    cache w' = Some ps /\
    (load_dumped (PyList (map model_dump ps)) = inr (PyList (map model_dump ps)) ->
     exists lst w'',
       load_presets w' = (Return lst, w'') /\
       records w'' lst = Some ps).
Proof.
  intros Hu Hex Hdi Hrun.
  assert (Hwf : is_Some (cache w)) by (destruct Hu as (ps & Hc & _); eauto).
  destruct (call_written _ _ _ _ _ Hwf Hex Hrun) as (t & ps & _ & Hc & Hf).
  assert (Hu' : unique_ids w').
  { destruct c as [preset|preset|target]; cbn in *.
    - eapply add_preset_unique_ids; eauto.
    - eapply update_preset_unique_ids; eauto.
    - eapply delete_preset_unique_ids; eauto. }
  destruct Hu' as (ps' & Hc' & Hnd).
  assert (ps' = ps) as -> by congruence.
  exists ps. split; [exact Hc|]. intros Hyaml.
  apply (load_presets_in_step _ _ _ Hc Hnd Hf Hyaml).
Qed.

Lemma successful_call_is_durable_witness :
  exists lst w'',
    load_presets after_add = (Return lst, w'') /\
    records w'' lst = Some [sample 0 "A"; sample 1 "B"; sample 2 "C"].
Proof.
  destruct (successful_call_is_durable two_presets (Add 2%nat)
              (Written 1700000001.0%float) 2 after_add) as (ps & Hc & Hload).
  - exists [sample 0 "A"; sample 1 "B"]. split; [reflexivity|].
    apply (bool_decide_unpack _). vm_compute. exact I.
  - eexists. reflexivity.
  - intros l [= <-]. apply (bool_decide_unpack _). vm_compute. exact I.
  - reflexivity.
  - injection Hc as <-. apply Hload. reflexivity.
Defined.

Lemma unique_ids_kept_witness :
  exists ps,
    records (snd (load_presets after_add)) 1%nat = Some ps /\ NoDup (map id ps).
Proof.
  apply (unique_ids_kept two_presets after_add 1%nat (snd (load_presets after_add))).
  - exists [sample 0 "A"; sample 1 "B"]. split; [reflexivity|].
    apply (bool_decide_unpack _). vm_compute. exact I.
  - apply (history_call two_presets two_presets after_add (Add 2%nat)
             (Written 1700000001.0%float) 2).
    + apply history_start.
    + eexists. reflexivity.
    + intros l [= <-]. apply (bool_decide_unpack _). vm_compute. exact I.
    + reflexivity.
  - reflexivity.
Defined.

(** ** Further properties of validation *)

Lemma dict_get_other (k key : string) (v : pyval) before after :
  key <> k ->
  dict_get k (before ++ (key, v) :: after) = dict_get k (before ++ after).
Proof.
  intros Hne. induction before as [|[k' v'] before IH]; cbn.
  - rewrite (proj2 (String.eqb_neq key k) Hne). reflexivity.
  - rewrite IH. reflexivity.
Qed.

Lemma field_other {pydantic : Pydantic} {A : Type} (validate : pyval -> option A)
    default (k key : string) (v : pyval) before after :
  key <> k ->
  field validate default k (before ++ (key, v) :: after) =
  field validate default k (before ++ after).
Proof. intros Hne. unfold field. rewrite (dict_get_other _ _ _ _ _ Hne). reflexivity. Qed.

Lemma Preset_init_missing {pydantic : Pydantic} entries key :
  key ∈ Preset_fields ->
  key <> "tempoDynamicsScale" ->
  dict_get key entries = None ->
  exists errs, Preset_init entries = inl errs /\ Missing key ∈ errs.
Proof.
  intros Hkey Hne Hget.
  assert (Hin : Missing key ∈ Preset_field_errors entries).
  { unfold Preset_field_errors, Preset_fields in *.
    repeat (apply elem_of_cons in Hkey as [->|Hkey];
            [ try congruence;
              rewrite (field_missing _ _ _ Hget); cbn [errors_of];
              rewrite !elem_of_app, list_elem_of_singleton; tauto | ]).
    apply elem_of_nil in Hkey. contradiction. }
  pose proof (Preset_init_errors entries) as Herr.
  destruct (Preset_init entries) as [errs|p]; cbn in Herr.
  - exists errs. split; [reflexivity|]. rewrite Herr. exact Hin.
  - rewrite <- Herr in Hin. apply elem_of_nil in Hin. contradiction.
Qed.

(** X14: [tempoDynamicsScale] is the one field with a default: a record
    written without it is read back with 1.0 there and is otherwise
    unchanged; when any other field is absent, construction fails and the
    errors name the missing field. *)
Theorem Preset_init_missing_field {pydantic : Pydantic} :
  (forall p entries,
     model_dump p = PyDict entries ->
     Preset_init (dict_remove "tempoDynamicsScale" entries) =
     inr (set_tempoDynamicsScale p 1.0%float)) /\
  (forall entries key,
     key ∈ Preset_fields ->
     key <> "tempoDynamicsScale" ->
     dict_get key entries = None ->
     exists errs, Preset_init entries = inl errs /\ Missing key ∈ errs).
Proof.
  split.
  - intros p entries Hdump. destruct p. injection Hdump as <-. reflexivity.
  - intros entries key. apply Preset_init_missing.
Qed.

(** X15: a key that names no field of [Preset] is ignored: with or without
    it, construction gives the same record or the same errors. *)
Theorem Preset_init_ignores_unknown_key {pydantic : Pydantic}
    (before after : list (string * pyval)) (key : string) (v : pyval) :
  key ∉ Preset_fields ->
  Preset_init (before ++ (key, v) :: after) = Preset_init (before ++ after).
Proof.
  intros Hkey.
  assert (Hne : forall k, k ∈ Preset_fields -> key <> k).
  { intros k Hk ->. exact (Hkey Hk). }
  unfold Preset_init.
  rewrite !field_other; try reflexivity;
    apply Hne; unfold Preset_fields; rewrite !elem_of_cons; tauto.
Qed.

Lemma Preset_init_ignores_unknown_key_witness :
  Preset_init ([] ++ ("comment", PyStr "x") :: out_of_range_input) =
  Preset_init ([] ++ out_of_range_input).
Proof.
  apply (Preset_init_ignores_unknown_key [] out_of_range_input
           "comment" (PyStr "x")).
  unfold Preset_fields. rewrite !not_elem_of_cons.
  repeat split; try discriminate. apply not_elem_of_nil.
Defined.

(** ** Reconcile and validation together *)

Lemma Preset_validate_without_tempo {pydantic : Pydantic} (p : Preset) :
  Preset_validate (without_tempoDynamicsScale (model_dump p)) =
  inr (set_tempoDynamicsScale p 1.0%float).
Proof. destruct p. reflexivity. Qed.

Lemma validate_all_without_tempo {pydantic : Pydantic} (ps : list Preset) :
  validate_all (map (fun p => without_tempoDynamicsScale (model_dump p)) ps) =
  Some (map (fun p => set_tempoDynamicsScale p 1.0%float) ps).
Proof.
  induction ps as [|p ps IH]; [reflexivity|].
  cbn [map validate_all]. rewrite Preset_validate_without_tempo, IH. reflexivity.
Qed.

(** X20: a file whose records lack [tempoDynamicsScale] (one written for
    VOICEVOX ENGINE) is loaded: reconcile returns and the cache holds the
    records of the file, in order, each with [tempoDynamicsScale] 1.0. *)
Theorem refresh_cache_loads_file_without_tempo {pydantic : Pydantic} {yaml : Yaml} (w : world)
    (t : float) (ps : list Preset) :
  PrimFloat.eqb t (last_modified_time (self w)) = false ->
  NoDup (map id ps) ->
  exists w',
    _refresh_cache
      (with_file
         (Present t (Document (PyList
            (map (fun p => without_tempoDynamicsScale (model_dump p)) ps))))
         w) = (Return tt, w') /\
    cache w' = Some (map (fun p => set_tempoDynamicsScale p 1.0%float) ps) /\
    last_modified_time (self w') = t.
Proof.
  intros Ht Hnd. eexists. split; [|split].
  - eapply refresh_cache_reload; [reflexivity | exact Ht | |].
    + apply validate_all_without_tempo.
    + rewrite map_map. exact Hnd.
  - apply cache_reloaded.
  - reflexivity.
Qed.

Lemma refresh_cache_loads_file_without_tempo_witness :
  exists w',
    _refresh_cache
      (with_file
         (Present 1700000001.0%float (Document (PyList
            (map (fun p => without_tempoDynamicsScale (model_dump p))
                 [out_of_range; sample 4 "B"]))))
         two_presets) = (Return tt, w') /\
    cache w' = Some (map (fun p => set_tempoDynamicsScale p 1.0%float)
                         [out_of_range; sample 4 "B"]) /\
    last_modified_time (self w') = 1700000001.0%float.
Proof.
  apply (refresh_cache_loads_file_without_tempo two_presets 1700000001.0%float
           [out_of_range; sample 4 "B"]).
  - reflexivity.
  - apply (bool_decide_unpack _). vm_compute. exact I.
Defined.

Lemma validate_all_invalid {pydantic : Pydantic} (items : list pyval) (v : pyval) errs :
  v ∈ items -> Preset_validate v = inl errs -> validate_all items = None.
Proof.
  intros Hin Hv. induction items as [|x items IH].
  - apply elem_of_nil in Hin. contradiction.
  - cbn [validate_all]. apply elem_of_cons in Hin as [<-|Hin].
    + rewrite Hv. reflexivity.
    + rewrite (IH Hin). destruct (Preset_validate x); reflexivity.
Qed.

(** X21: a file whose document is neither null nor a list, a tuple or a
    set, or is one of these three and has among its elements a dict in which
    a field other than [tempoDynamicsScale] is missing, is rejected:
    reconcile raises [PresetInternalError] (a mistake in the file) and
    leaves the store as it was, objects included. *)
Theorem refresh_cache_rejects_malformed_file {pydantic : Pydantic} {yaml : Yaml}
    (w : world) (t : float) (obj : pyval) :
  file w = Present t (Document obj) ->
  PrimFloat.eqb t (last_modified_time (self w)) = false ->
  obj <> PyNone ->
  (forall items,
     obj <> PyList items /\ obj <> PyTuple items /\ obj <> PySet items) \/
  (exists items entries key,
     (obj = PyList items \/ obj = PyTuple items \/ obj = PySet items) /\
     PyDict entries ∈ items /\
     key ∈ Preset_fields /\ key <> "tempoDynamicsScale" /\
     dict_get key entries = None) ->
  _refresh_cache w = (Raise (PresetInternalError msg_file_mistake), w).
Proof.
  intros Hf Ht Hnone Hbad.
  assert (Hparse : parse_obj_as_presets obj = None).
  { destruct Hbad as [Hnoseq|(items & entries & key & Hobj & Hin & Hkey & Hne & Hget)].
    - destruct obj; try reflexivity;
        destruct (Hnoseq items) as (Hl & Ht' & Hs); congruence.
    - destruct (Preset_init_missing entries key Hkey Hne Hget) as (errs & Herrs & _).
      destruct Hobj as [ -> | [ -> | -> ] ];
        apply (validate_all_invalid items (PyDict entries) errs Hin Herrs). }
  unfold _refresh_cache, bind at 1, get_world. rewrite Hf, Ht. cbn [safe_load].
  destruct obj; try congruence; rewrite Hparse; reflexivity.
Qed.

Lemma refresh_cache_rejects_malformed_file_witness :
  _refresh_cache (just_opened (PyList [PyDict [("id", PyInt 0)]])) =
  (Raise (PresetInternalError msg_file_mistake),
   just_opened (PyList [PyDict [("id", PyInt 0)]])).
Proof.
  apply (refresh_cache_rejects_malformed_file
           (just_opened (PyList [PyDict [("id", PyInt 0)]]))
           1700000000.0%float (PyList [PyDict [("id", PyInt 0)]])).
  - reflexivity.
  - reflexivity.
  - discriminate.
  - right. exists [PyDict [("id", PyInt 0)]], [("id", PyInt 0)], "name".
    split; [left; reflexivity|]. split; [left|].
    split; [|split; [discriminate | reflexivity]].
    unfold Preset_fields. right. left.
Defined.

Lemma zenkaku_table_hit (i : nat) :
  (i < 94)%nat ->
  maketrans (map (fun i => (0x21 + N.of_nat i)%N) (seq 0 94))
            (map (fun i => (0xFF01 + N.of_nat i)%N) (seq 0 94))
    !! (0x21 + N.of_nat i)%N = Some (0xFF01 + N.of_nat i)%N.
Proof.
  intros Hi.
  assert (Hall : Forall (fun i =>
            maketrans (map (fun i => (0x21 + N.of_nat i)%N) (seq 0 94))
                      (map (fun i => (0xFF01 + N.of_nat i)%N) (seq 0 94))
              !! (0x21 + N.of_nat i)%N = Some (0xFF01 + N.of_nat i)%N) (seq 0 94)).
  { apply (bool_decide_unpack _). vm_compute. exact I. }
  apply (proj1 (Forall_forall _ _) Hall). apply elem_of_seq. lia.
Qed.

Lemma zenkaku_table_miss (c : N) :
  ~ (0x21 <= c <= 0x7E)%N ->
  maketrans (map (fun i => (0x21 + N.of_nat i)%N) (seq 0 94))
            (map (fun i => (0xFF01 + N.of_nat i)%N) (seq 0 94)) !! c = None.
Proof.
  intros Hc. unfold maketrans. apply not_elem_of_list_to_map. intros Hin.
  assert (Hall : Forall (fun k => (0x21 <= k <= 0x7E)%N)
            ((reverse (zip (map (fun i => (0x21 + N.of_nat i)%N) (seq 0 94))
                           (map (fun i => (0xFF01 + N.of_nat i)%N) (seq 0 94)))).*1)).
  { apply (bool_decide_unpack _). vm_compute. exact I. }
  apply Hc, (proj1 (Forall_forall _ _) Hall c Hin).
Qed.

Lemma zenkaku_char (c : N) :
  default c (maketrans (map (fun i => (0x21 + N.of_nat i)%N) (seq 0 94))
                       (map (fun i => (0xFF01 + N.of_nat i)%N) (seq 0 94)) !! c) =
  if ((0x21 <=? c) && (c <=? 0x7E))%N then (c + 0xFEE0)%N else c.
Proof.
  destruct ((0x21 <=? c) && (c <=? 0x7E))%N eqn:Hrange.
  - apply andb_true_iff in Hrange as [Hlo Hhi].
    apply N.leb_le in Hlo, Hhi.
    pose proof (zenkaku_table_hit (N.to_nat (c - 0x21)) ltac:(lia)) as Hhit.
    replace (0x21 + N.of_nat (N.to_nat (c - 0x21)))%N with c in Hhit by lia.
    rewrite Hhit. unfold default, from_option, Datatypes.id. lia.
  - rewrite zenkaku_table_miss; [reflexivity|].
    intros [Hlo Hhi]. apply N.leb_le in Hlo, Hhi. rewrite Hlo, Hhi in Hrange.
    discriminate Hrange.
Qed.

(** X16: [convert_to_zenkaku] replaces the 94 characters U+0021 to U+007E,
    and only these, by their full-width forms U+FF01 to U+FF5E, 0xFEE0
    further on; every other character, the space U+0020 among them, is
    kept.  So it keeps the length, leaves none of the 94 characters in its
    result, and converting twice is converting once. *)
Theorem convert_to_zenkaku_spec (surface : list N) :
  convert_to_zenkaku surface =
    map (fun c => if ((0x21 <=? c) && (c <=? 0x7E))%N then (c + 0xFEE0)%N else c)
        surface /\
  length (convert_to_zenkaku surface) = length surface /\
  (forall c, c ∈ convert_to_zenkaku surface -> (c < 0x21 \/ 0x7E < c)%N) /\
  convert_to_zenkaku (convert_to_zenkaku surface) = convert_to_zenkaku surface.
Proof.
  assert (Hspec : forall s,
            convert_to_zenkaku s =
            map (fun c => if ((0x21 <=? c) && (c <=? 0x7E))%N
                          then (c + 0xFEE0)%N else c) s).
  { intros s. unfold convert_to_zenkaku, translate.
    apply map_ext. intros c. apply zenkaku_char. }
  assert (Hout : forall c, c ∈ convert_to_zenkaku surface -> (c < 0x21 \/ 0x7E < c)%N).
  { intros c. rewrite Hspec. intros Hc.
    apply list_elem_of_fmap in Hc as (c0 & -> & _).
    destruct ((0x21 <=? c0) && (c0 <=? 0x7E))%N eqn:Hrange.
    - apply andb_true_iff in Hrange as [Hlo _]. apply N.leb_le in Hlo. lia.
    - apply andb_false_iff in Hrange as [H|H]; apply N.leb_gt in H; lia. }
  split; [apply Hspec|]. split; [|split; [exact Hout|]].
  - rewrite Hspec. apply length_map.
  - rewrite (Hspec (convert_to_zenkaku surface)).
    rewrite <- (map_id (convert_to_zenkaku surface)) at 2.
    apply map_ext_in. intros c Hc. apply list_elem_of_In, Hout in Hc.
    destruct ((0x21 <=? c) && (c <=? 0x7E))%N eqn:Hrange; [|reflexivity].
    apply andb_true_iff in Hrange as [Hlo Hhi]. apply N.leb_le in Hlo, Hhi. lia.
Qed.

(** ** [check_is_katakana] *)

Lemma first_error_None body i n :
  first_error body i n = None <->
  forall j, (i <= j < i + n)%nat -> body j = None.
Proof.
  revert i. induction n as [|n IH]; intros i; cbn.
  - split; [intros _ j Hj; lia | reflexivity].
  - destruct (body i) as [e|] eqn:Hi.
    + split; [discriminate|]. intros H. rewrite <- Hi. apply H. lia.
    + rewrite IH. split.
      * intros H j Hj. destruct (decide (j = i)) as [->|Hne]; [exact Hi|].
        apply H. lia.
      * intros H j Hj. apply H. lia.
Qed.

Lemma fullmatch_katakana_true (p : list N) :
  fullmatch_katakana p = true <->
  p <> [] /\ forall c, c ∈ p -> is_katakana c = true.
Proof.
  destruct p as [|c0 p].
  - cbn. split; [discriminate | intros [H _]; congruence].
  - unfold fullmatch_katakana. rewrite forallb_forall. split.
    + intros H. split; [discriminate|]. intros c Hc. apply H, list_elem_of_In, Hc.
    + intros [_ H] c Hc. apply H, list_elem_of_In, Hc.
Qed.

Lemma char_at_lookup (p : list N) i a : p !! i = Some a -> char_at p i = a.
Proof. intros H. unfold char_at. rewrite nth_lookup, H. reflexivity. Qed.

Lemma sutegana_split (b : N) :
  b ∈ sutegana <-> b ∈ removelast sutegana \/ b = ord "ッ".
Proof.
  change sutegana with (removelast sutegana ++ [ord "ッ"]) at 1.
  rewrite elem_of_app, list_elem_of_singleton. reflexivity.
Qed.

Lemma tsu_not_before : ord "ッ" ∉ removelast sutegana.
Proof. apply (bool_decide_unpack _). vm_compute. exact I. Qed.

(** The body of the loop raises nothing at an index exactly when the
    character there gets on with its neighbours. *)
Lemma check_at_None (p : list N) j a :
  p !! j = Some a ->
  check_at p j = None <->
  (forall b, p !! S j = Some b ->
     a ∈ sutegana -> b ∈ sutegana -> b = ord "ッ" /\ a <> ord "ッ") /\
  (a = ord "ヮ" -> forall j' z, j = S j' -> p !! j' = Some z -> z ∈ u "クグ").
Proof.
  intros Hj. unfold check_at. rewrite (char_at_lookup _ _ _ Hj).
  change (List.last sutegana 0%N) with (ord "ッ").
  pose proof tsu_not_before as Htsu.
  assert (Hnext : (j <? length p - 1)%nat =
                  match p !! S j with Some _ => true | None => false end).
  { destruct (p !! S j) as [b|] eqn:Hb.
    - apply Nat.ltb_lt. pose proof (lookup_lt_Some _ _ _ Hb). lia.
    - apply Nat.ltb_ge. apply lookup_ge_None in Hb. lia. }
  rewrite Hnext. clear Hnext. unfold among.
  replace (j + 1)%nat with (S j) by lia.
  destruct (p !! S j) as [b|] eqn:Hb.
  - rewrite (char_at_lookup _ _ _ Hb).
    destruct (decide (a ∈ sutegana)) as [Hs|Hs].
    + rewrite (bool_decide_eq_true_2 _ Hs).
      destruct (decide (b ∈ removelast sutegana)) as [Hr|Hr].
      * rewrite (bool_decide_eq_true_2 _ Hr). cbn [andb orb negb Nat.eqb]. split; [discriminate|].
        intros [H _]. destruct (H b eq_refl Hs) as [-> _].
        { apply sutegana_split. left. exact Hr. }
        contradiction.
      * rewrite (bool_decide_eq_false_2 _ Hr). cbn [orb andb].
        destruct (N.eqb_spec a (ord "ッ")) as [Ea|Ea];
          destruct (N.eqb_spec b (ord "ッ")) as [Eb|Eb]; cbn [andb].
        -- split; [discriminate|]. intros [H _].
           destruct (H b eq_refl Hs) as [_ Hne]; [|contradiction].
           apply sutegana_split. right. exact Eb.
        -- destruct (N.eqb_spec a (ord "ヮ")) as [Ew|Ew];
             [exfalso; rewrite Ea in Ew; vm_compute in Ew; discriminate Ew|].
           split; [intros _|reflexivity]. split.
           ++ intros b' [= <-] _ Hbs. apply sutegana_split in Hbs. tauto.
           ++ intros Hw. contradiction.
        -- { destruct (N.eqb_spec a (ord "ヮ")) as [Ew|Ew].
             - destruct j as [|j'].
               + cbn [andb orb negb Nat.eqb]. split; [intros _|reflexivity]. split.
                 * intros b' [= <-] _ _. split; assumption.
                 * intros _ j' z Hj'. discriminate Hj'.
               + cbn [Nat.eqb negb andb].
                 replace (S j' - 1)%nat with j' by lia.
                 destruct (p !! j') as [z|] eqn:Hz.
                 2:{ apply lookup_ge_None in Hz.
                     pose proof (lookup_lt_Some _ _ _ Hj). lia. }
                 rewrite (char_at_lookup _ _ _ Hz).
                 destruct (decide (z ∈ u "クグ")) as [Hk|Hk].
                 * rewrite (bool_decide_eq_true_2 _ Hk). cbn [andb orb negb Nat.eqb].
                   split; [intros _|reflexivity]. split.
                   -- intros b' [= <-] _ _. split; assumption.
                   -- intros _ j'' z' [= <-] Hz'. congruence.
                 * rewrite (bool_decide_eq_false_2 _ Hk). cbn [andb orb negb Nat.eqb].
                   split; [discriminate|]. intros [_ H].
                   destruct Hk. apply (H Ew j' z eq_refl Hz).
             - split; [intros _|reflexivity]. split.
               + intros b' [= <-] _ _. split; assumption.
               + intros Hw. contradiction. }
        -- { destruct (N.eqb_spec a (ord "ヮ")) as [Ew|Ew].
             - destruct j as [|j'].
               + cbn [andb orb negb Nat.eqb]. split; [intros _|reflexivity]. split.
                 * intros b' [= <-] _ Hbs. apply sutegana_split in Hbs. tauto.
                 * intros _ j' z Hj'. discriminate Hj'.
               + cbn [Nat.eqb negb andb].
                 replace (S j' - 1)%nat with j' by lia.
                 destruct (p !! j') as [z|] eqn:Hz.
                 2:{ apply lookup_ge_None in Hz.
                     pose proof (lookup_lt_Some _ _ _ Hj). lia. }
                 rewrite (char_at_lookup _ _ _ Hz).
                 destruct (decide (z ∈ u "クグ")) as [Hk|Hk].
                 * rewrite (bool_decide_eq_true_2 _ Hk). cbn [andb orb negb Nat.eqb].
                   split; [intros _|reflexivity]. split.
                   -- intros b' [= <-] _ Hbs. apply sutegana_split in Hbs. tauto.
                   -- intros _ j'' z' [= <-] Hz'. congruence.
                 * rewrite (bool_decide_eq_false_2 _ Hk). cbn [andb orb negb Nat.eqb].
                   split; [discriminate|]. intros [_ H].
                   destruct Hk. apply (H Ew j' z eq_refl Hz).
             - split; [intros _|reflexivity]. split.
               + intros b' [= <-] _ Hbs. apply sutegana_split in Hbs. tauto.
               + intros Hw. contradiction. }
    + rewrite (bool_decide_eq_false_2 _ Hs).
      destruct (N.eqb_spec a (ord "ヮ")) as [Ew|Ew].
      { destruct Hs. rewrite Ew. apply (bool_decide_unpack _). vm_compute. exact I. }
      split; [intros _|reflexivity]. split.
      * intros b' _ Hs'. contradiction.
      * intros Hw. contradiction.
  - rewrite andb_false_l.
    assert (Hfirst : (if bool_decide (a ∈ sutegana) then
                        if false then Some ConsecutiveSutegana else None
                      else None) = None)
      by (destruct (bool_decide (a ∈ sutegana)); reflexivity).
    rewrite Hfirst. clear Hfirst.
    destruct (N.eqb_spec a (ord "ヮ")) as [Ew|Ew].
    + destruct j as [|j'].
      * cbn [andb orb negb Nat.eqb]. split; [intros _|reflexivity]. split.
        -- intros b' Hb'. discriminate Hb'.
        -- intros _ j' z Hj'. discriminate Hj'.
      * cbn [Nat.eqb negb andb].
        replace (S j' - 1)%nat with j' by lia.
        destruct (p !! j') as [z|] eqn:Hz.
        2:{ apply lookup_ge_None in Hz.
            pose proof (lookup_lt_Some _ _ _ Hj). lia. }
        rewrite (char_at_lookup _ _ _ Hz).
        destruct (decide (z ∈ u "クグ")) as [Hk|Hk].
        -- rewrite (bool_decide_eq_true_2 _ Hk). cbn [andb orb negb Nat.eqb].
           split; [intros _|reflexivity]. split.
           ++ intros b' Hb'. discriminate Hb'.
           ++ intros _ j'' z' [= <-] Hz'. congruence.
        -- rewrite (bool_decide_eq_false_2 _ Hk). cbn [andb orb negb Nat.eqb].
           split; [discriminate|]. intros [_ H].
           destruct Hk. apply (H Ew j' z eq_refl Hz).
    + split; [intros _|reflexivity]. split.
      * intros b' Hb'. discriminate Hb'.
      * intros Hw. contradiction.
Qed.

(** What the loop and the pattern of [check_is_katakana] let through. *)
Lemma check_is_katakana_valid (p : list N) :
  check_is_katakana p = inr p <-> valid_pronunciation p.
Proof.
  unfold check_is_katakana, valid_pronunciation.
  destruct (fullmatch_katakana p) eqn:Hfull; cbn [negb].
  2:{ split; [discriminate|].
      intros (Hne & Hkana & _).
      rewrite (proj2 (fullmatch_katakana_true p) (conj Hne Hkana)) in Hfull.
      discriminate Hfull. }
  apply fullmatch_katakana_true in Hfull as [Hne Hkana].
  destruct (first_error (check_at p) 0 (length p)) as [e|] eqn:Hloop.
  - split; [discriminate|].
    intros (_ & _ & Hadj). exfalso.
    assert (Hnone : first_error (check_at p) 0 (length p) = None).
    { apply first_error_None. intros j Hj.
      destruct (lookup_lt_is_Some_2 p j ltac:(lia)) as [a Ha].
      apply (check_at_None p j a Ha). split.
      - intros b Hb. apply (Hadj j a b Ha Hb).
      - intros Hw j' z -> Hz. apply (Hadj j' z a Hz Ha), Hw. }
    congruence.
  - split; [intros _|reflexivity].
    split; [exact Hne|]. split; [exact Hkana|].
    intros i a b Ha Hb.
    pose proof (proj1 (first_error_None _ _ _) Hloop) as Hall.
    pose proof (lookup_lt_Some _ _ _ Hb) as Hlt.
    split.
    + apply (proj1 (proj1 (check_at_None p i a Ha) (Hall i ltac:(lia))) b Hb).
    + intros Hw.
      apply (proj2 (proj1 (check_at_None p (S i) b Hb) (Hall (S i) ltac:(lia)))
               Hw i a eq_refl Ha).
Qed.

(** X17: [check_is_katakana] returns the string it is given, and it returns
    (rather than raising [ValueError]) exactly for the strings that are not
    empty, hold katakana only, have no small kana followed by another one
    (except that one other than ッ may be followed by ッ) and have ク or グ
    before every ヮ that is not the first character. *)
Theorem check_is_katakana_spec (p : list N) :
  (forall r, check_is_katakana p = inr r -> r = p) /\
  (check_is_katakana p = inr p <-> valid_pronunciation p).
Proof.
  split; [|apply check_is_katakana_valid].
  unfold check_is_katakana.
  destruct (negb (fullmatch_katakana p)); [discriminate|].
  destruct (first_error (check_at p) 0 (length p)); [discriminate|].
  intros r [= <-]. reflexivity.
Qed.

(** ** The mora count *)

Lemma count_moras_pair (a b : N) (rest : list N) :
  count_moras (a :: b :: rest) =
  if rule_others a b || rule_line_i a b || rule_line_u a b
  then S (count_moras rest)
  else if rule_one_mora a then S (count_moras (b :: rest))
       else count_moras (b :: rest).
Proof. reflexivity. Qed.

Lemma count_moras_le (n : nat) (s : list N) :
  (length s <= n)%nat -> (count_moras s <= length s)%nat.
Proof.
  revert s. induction n as [|n IH]; intros s Hn.
  - destruct s; [cbn; lia | cbn in Hn; lia].
  - destruct s as [|a [|b rest]].
    + cbn. lia.
    + cbn [count_moras length]. destruct (rule_one_mora a); lia.
    + rewrite count_moras_pair. cbn [length] in *.
      pose proof (IH rest ltac:(lia)).
      pose proof (IH (b :: rest) ltac:(cbn [length]; lia)) as Hb. cbn [length] in Hb.
      destruct (_ || _); [lia|]. destruct (rule_one_mora a); lia.
Qed.

Lemma count_moras_ge (n : nat) (s : list N) :
  (length s <= n)%nat ->
  (forall c, c ∈ s -> is_katakana c = true) ->
  (length s <= 2 * count_moras s)%nat.
Proof.
  revert s. induction n as [|n IH]; intros s Hn Hkana.
  - destruct s; [cbn; lia | cbn in Hn; lia].
  - destruct s as [|a [|b rest]].
    + cbn. lia.
    + cbn [count_moras length]. unfold rule_one_mora. rewrite (Hkana a) by left. lia.
    + rewrite count_moras_pair. cbn [length] in *.
      assert (Hrest : forall c, c ∈ rest -> is_katakana c = true)
        by (intros c Hc; apply Hkana; right; right; exact Hc).
      assert (Hb : forall c, c ∈ b :: rest -> is_katakana c = true)
        by (intros c Hc; apply Hkana; right; exact Hc).
      pose proof (IH rest ltac:(lia) Hrest).
      pose proof (IH (b :: rest) ltac:(cbn [length]; lia) Hb) as Hbr.
      cbn [length] in Hbr.
      destruct (_ || _); [lia|].
      unfold rule_one_mora. rewrite (Hkana a) by left. lia.
Qed.

(** X18: the number of moras counted in a string is at most its length,
    and for a string of katakana at least half its length: every character
    is counted, alone or as the first or second of a pair. *)
Theorem count_moras_bounds (s : list N) :
  (count_moras s <= length s)%nat /\
  ((forall c, c ∈ s -> is_katakana c = true) ->
   (length s <= 2 * count_moras s)%nat).
Proof.
  split.
  - apply (count_moras_le (length s)). lia.
  - apply (count_moras_ge (length s)). lia.
Qed.

(** ** [check_mora_count_and_accent_type] *)

(** X19: when the pronunciation or the accent type is not among the
    validated values, [mora_count] is passed on as it is.  Otherwise the
    validator returns a mora count [m] only with [0 <= accent_type <= m],
    where [m] is the [mora_count] given, taken on trust, or, for [None], the
    number of moras counted in the pronunciation; it raises only for an
    accent type outside that range, for that same [m], which the error
    carries.  With no [mora_count] given and a
    pronunciation [check_is_katakana] accepts, the accent types 0 and 1 are
    always accepted and an accent type above the length of the
    pronunciation never is. *)
Theorem check_mora_count_and_accent_type_spec
    (mora_count : option Z) (pron : list N) (accent : Z) :
  (forall vs,
     pronunciation vs = None \/ accent_type vs = None ->
     check_mora_count_and_accent_type mora_count vs = inr mora_count) /\
  (forall r,
     check_mora_count_and_accent_type mora_count
       {| pronunciation := Some pron; accent_type := Some accent |} = inr r ->
     exists m, r = Some m /\ 0 <= accent <= m /\
               (mora_count = Some m \/
                mora_count = None /\ m = Z.of_nat (count_moras pron))) /\
  (forall e,
     check_mora_count_and_accent_type mora_count
       {| pronunciation := Some pron; accent_type := Some accent |} = inl e ->
     exists m, e = WrongAccentType accent m /\ ~ (0 <= accent <= m) /\
               (mora_count = Some m \/
                mora_count = None /\ m = Z.of_nat (count_moras pron))) /\
  (check_is_katakana pron = inr pron ->
   0 <= accent <= 1 ->
   check_mora_count_and_accent_type None
     {| pronunciation := Some pron; accent_type := Some accent |} =
   inr (Some (Z.of_nat (count_moras pron)))) /\
  (Z.of_nat (length pron) < accent ->
   check_mora_count_and_accent_type None
     {| pronunciation := Some pron; accent_type := Some accent |} =
   inl (WrongAccentType accent (Z.of_nat (count_moras pron)))).
Proof.
  split; [|split; [|split; [|split]]].
  - intros [[p|] [a|]] [H|H]; try discriminate H; reflexivity.
  - intros r. unfold check_mora_count_and_accent_type.
    cbn [pronunciation accent_type].
    destruct mora_count as [m|];
      destruct (Z.leb_spec 0 accent); cbn [andb negb]; try discriminate;
      (match goal with |- context [(accent <=? ?x)] => destruct (Z.leb_spec accent x) end);
      cbn [negb]; try discriminate; intros [= <-]; eexists;
      (split; [reflexivity|]); (split; [lia|]); auto.
  - intros e. unfold check_mora_count_and_accent_type.
    cbn [pronunciation accent_type].
    destruct mora_count as [m|];
      destruct (Z.leb_spec 0 accent); cbn [andb negb];
      try (match goal with |- context [(accent <=? ?x)] => destruct (Z.leb_spec accent x) end);
      cbn [negb]; try discriminate; intros [= <-]; eexists;
      (split; [reflexivity|]); (split; [lia|]); auto.
  - intros Hvalid Hacc.
    apply check_is_katakana_valid in Hvalid as (Hne & Hkana & _).
    pose proof (count_moras_ge (length pron) pron ltac:(lia) Hkana) as Hge.
    assert (0 < length pron)%nat by (destruct pron; [congruence | cbn; lia]).
    unfold check_mora_count_and_accent_type. cbn [pronunciation accent_type].
    rewrite (proj2 (Z.leb_le 0 accent)) by lia.
    rewrite (proj2 (Z.leb_le accent _)) by lia. reflexivity.
  - intros Hacc.
    pose proof (count_moras_le (length pron) pron ltac:(lia)) as Hle.
    unfold check_mora_count_and_accent_type. cbn [pronunciation accent_type].
    rewrite (proj2 (Z.leb_le 0 accent)) by lia.
    rewrite (proj2 (Z.leb_gt accent _)) by lia. reflexivity.
Qed.
